(** * x3f-go: the OpenCV denoise / upscale / defect-repair adapter

    A shallow embedding of [src/x3f/denoise_opencv.cpp].  The four entry
    points of that file orchestrate OpenCV: they wrap caller-owned strided
    buffers in [cv::Mat] headers, call numeric kernels and copy the result
    back row by row.

    - Caller buffers are lists of samples ([list Z]); a [cv::Mat] is a
      header (rows, columns, type) over rows of pixels of channel samples.
    - The numeric kernels ([fastNlMeansDenoising], [medianBlur], [resize],
      [inpaint]) are not part of the repository.  A program is a tree of
      kernel calls ([Prog]); a [Backend] answers every call with a matrix.
      [run] gives the value of a program under a backend and [calls] the
      kernel calls it issues, in order.
    - [mixChannels], [split], [merge], [subtract], the [Mat] constructor over
      user data and [memcpy] are deterministic integer code and are modelled
      concretely.  An argument check of OpenCV that fails is [CvException];
      an access outside a buffer or an [int] overflow is
      [UndefinedBehaviour]. *)

From Stdlib Require Import ZArith Lia Floats.SpecFloat.
From stdpp Require Import base list.

(** ** C scalars *)

(** [float]: IEEE-754 binary32. *)
Module f32.
Definition t : Type := spec_float.
Definition prec : Z := 24.
Definition emax : Z := 128.
Definition zero : t := S754_zero false.
Definition of_int (z : Z) : t := binary_normalize prec emax z 0 false.
Definition div (x y : t) : t := SFdiv prec emax x y.
Definition mul (x y : t) : t := SFmul prec emax x y.
End f32.

(** [double]: IEEE-754 binary64. *)
Module f64.
Definition t : Type := spec_float.
Definition prec : Z := 53.
Definition emax : Z := 1024.
Definition zero : t := S754_zero false.
Definition of_int (z : Z) : t := binary_normalize prec emax z 0 false.
Definition one : t := of_int 1.
Definition div (x y : t) : t := SFdiv prec emax x y.
End f64.

Definition INT_MIN : Z := -2147483648.
Definition INT_MAX : Z := 2147483647.
Definition sizeof_uint16 : Z := 2.

(** ** Faults and the error monad of the deterministic helpers *)

Inductive Fault : Type :=
| UndefinedBehaviour   (* out-of-bounds access, signed overflow *)
| CvException.         (* a failed CV_Assert *)

Inductive result (A : Type) : Type :=
| Ok (a : A)
| Err (e : Fault).
Arguments Ok {A} a.
Arguments Err {A} e.

#[global] Instance result_ret : MRet result := fun A a => Ok a.
#[global] Instance result_bind : MBind result := fun A B f m =>
  match m with Ok a => f a | Err e => Err e end.

(** [int * int]: signed overflow is undefined. *)
Definition int_mul (a b : Z) : result Z :=
  if decide (INT_MIN ≤ a * b ≤ INT_MAX)%Z then Ok (a * b)%Z
  else Err UndefinedBehaviour.

(** ** Matrices *)

Inductive Depth : Type := CV_8U | CV_16U | CV_16S.

#[global] Instance Depth_eq_dec : EqDecision Depth.
Proof. solve_decision. Defined.

Record MatType : Type := CV_MAKETYPE { depth : Depth; cn : nat }.

#[global] Instance MatType_eq_dec : EqDecision MatType.
Proof. solve_decision. Defined.

(** [CV_CN_MAX]: the largest channel count a matrix type can carry. *)
Definition CV_CN_MAX : Z := 512.

(** [CV_16UC(channels)].  OpenCV packs [channels - 1] into nine bits of the
    type, so the macro denotes the type with [channels] channels exactly
    for [1 <= channels <= CV_CN_MAX]; this definition is the macro on that
    range.  Beyond it the macro wraps around (0 gives 512 channels, 513
    gives 1), which is not modelled. *)
Definition CV_16UC (channels : Z) : MatType := CV_MAKETYPE CV_16U (Z.to_nat channels).
Definition CV_16U1 : MatType := CV_MAKETYPE CV_16U 1.
Definition CV_8U1 : MatType := CV_MAKETYPE CV_8U 1.

(** Bytes per channel sample. *)
Definition elemSize1 (d : Depth) : Z :=
  match d with CV_8U => 1 | CV_16U => 2 | CV_16S => 2 end.

(** [cv::Size(width, height)]; [Size()] is [(0, 0)]. *)
Record Size : Type := mkSize { width : nat; height : nat }.

#[global] Instance Size_eq_dec : EqDecision Size.
Proof. solve_decision. Defined.

Definition Size_default : Size := mkSize 0 0.

Abbreviation Pixel := (list Z) (only parsing).

(** A matrix: the header and the logical content, row by row, pixel by
    pixel, channel by channel.  Padding of a strided buffer is never part
    of a matrix. *)
Record Mat : Type := mkMat {
  Mat_rows : nat;
  Mat_cols : nat;
  Mat_type : MatType;
  Mat_px : list (list Pixel)
}.

Definition Mat_size (m : Mat) : Size := mkSize (Mat_cols m) (Mat_rows m).
Definition Mat_channels (m : Mat) : nat := cn (Mat_type m).
Definition Mat_depth (m : Mat) : Depth := depth (Mat_type m).

(** [m.at(y, x)[c]] *)
Definition Mat_at (m : Mat) (y x c : nat) : option Z :=
  match Mat_px m !! y with
  | Some r => match r !! x with Some p => p !! c | None => None end
  | None => None
  end.

(** The content agrees with the header. *)
Definition Mat_wf (m : Mat) : Prop :=
  length (Mat_px m) = Mat_rows m ∧
  Forall (λ r, length r = Mat_cols m ∧
               Forall (λ p : Pixel, length p = Mat_channels m) r) (Mat_px m).

(** [cv::Mat(size, type)]: a fresh matrix.  Its content is indeterminate in
    C++; it is zero here, and the one use in this file overwrites every
    sample before reading it. *)
Definition Mat_create (sz : Size) (ty : MatType) : Mat :=
  mkMat (height sz) (width sz) ty
        (replicate (height sz) (replicate (width sz) (replicate (cn ty) 0%Z))).

(** *** A matrix header over user data *)

(** [n] samples at sample offset [off] of a buffer. *)
Definition read_span (data : list Z) (off n : Z) : result (list Z) :=
  if decide (0 ≤ off ∧ 0 ≤ n ∧ off + n ≤ Z.of_nat (length data))%Z
  then Ok (take (Z.to_nat n) (drop (Z.to_nat off) data))
  else Err UndefinedBehaviour.

(** Cut a row of samples into [k] pixels of [n] channels. *)
Fixpoint chunks (n k : nat) (l : list Z) : list Pixel :=
  match k with
  | O => []
  | S k' => take n l :: chunks n k' (drop n l)
  end.

Fixpoint read_rows (data : list Z) (ys : list nat) (step esz : Z)
    (cols ch : nat) : result (list (list Pixel)) :=
  match ys with
  | [] => Ok []
  | y :: ys' =>
      r ← read_span data (Z.of_nat y * step / esz) (Z.of_nat (cols * ch));
      rs ← read_rows data ys' step esz cols ch;
      Ok (chunks ch cols r :: rs)
  end.

(** [cv::Mat(rows, cols, type, data, step)]: sample [(y, x, c)] lives at
    byte offset [y * step + (x * cn + c) * elemSize1].  The constructor
    copies nothing; the content is what a kernel reads through the header,
    and a header that reaches outside the buffer is undefined behaviour at
    that read. *)
Definition Mat_of_data (rows cols : Z) (ty : MatType) (data : list Z)
    (step : Z) : result Mat :=
  rs ← read_rows data (seq 0 (Z.to_nat rows)) step (elemSize1 (depth ty))
                 (Z.to_nat cols) (cn ty);
  Ok (mkMat (Z.to_nat rows) (Z.to_nat cols) ty rs).

(** [m.ptr<T>(y)] of a continuous matrix: the samples from the start of
    row [y] to the end of the allocation. *)
Definition Mat_ptr (m : Mat) (y : nat) : list Z :=
  mjoin (mjoin (drop y (Mat_px m))).

(** [memcpy(dst + off, src, nbytes)] on 16-bit samples. *)
Definition memcpy (dst : list Z) (off : Z) (src : list Z) (nbytes : Z)
    : result (list Z) :=
  let n := (nbytes / sizeof_uint16)%Z in
  if decide (0 ≤ off ∧ 0 ≤ nbytes ∧ off + n ≤ Z.of_nat (length dst)
             ∧ n ≤ Z.of_nat (length src))%Z
  then Ok (list_inserts (Z.to_nat off) (take (Z.to_nat n) src) dst)
  else Err UndefinedBehaviour.

(** The write-back loop shared by the entry points:
    [for (int y = 0; y < rows; y++)
       memcpy(data + y * rowStride, out.ptr<uint16_t>(y), nbytes);]
    [nbytes] is re-evaluated in every iteration, as in the source. *)
Fixpoint copy_rows (ys : list nat) (data : list Z) (rowStride : Z)
    (out : Mat) (nbytes : result Z) : result (list Z) :=
  match ys with
  | [] => Ok data
  | y :: ys' =>
      off ← int_mul (Z.of_nat y) rowStride;
      n ← nbytes;
      data' ← memcpy data off (Mat_ptr out y) n;
      copy_rows ys' data' rowStride out nbytes
  end.

Definition copy_back (data : list Z) (rows rowStride : Z) (out : Mat)
    (nbytes : result Z) : result (list Z) :=
  copy_rows (seq 0 (Z.to_nat rows)) data rowStride out nbytes.

(** A kernel that is given a destination header of the right size and type
    writes through it: row [y] of the result goes to sample offset
    [y * step / elemSize1], exactly [cols * cn] samples.  Otherwise
    [OutputArray::create] allocates a new matrix and the user buffer is
    left alone. *)
Fixpoint store_rows (data : list Z) (y : nat) (rs : list (list Pixel))
    (step esz : Z) (n : nat) : list Z :=
  match rs with
  | [] => data
  | r :: rs' =>
      store_rows
        (list_inserts (Z.to_nat (Z.of_nat y * step / esz)) (take n (mjoin r)) data)
        (S y) rs' step esz n
  end.

Definition Mat_store (data : list Z) (hdr : Mat) (step : Z) (r : Mat) : list Z :=
  if decide (Mat_size r = Mat_size hdr ∧ Mat_type r = Mat_type hdr)
  then store_rows data 0 (take (Mat_rows hdr) (Mat_px r)) step
                  (elemSize1 (Mat_depth hdr)) (Mat_cols hdr * Mat_channels hdr)
  else data.

(** ** Deterministic OpenCV helpers *)

(** [saturate_cast<T>] for the three sample types in use. *)
Definition saturate_cast (d : Depth) (v : Z) : Z :=
  match d with
  | CV_8U => Z.max 0 (Z.min 255 v)
  | CV_16U => Z.max 0 (Z.min 65535 v)
  | CV_16S => Z.max (-32768) (Z.min 32767 v)
  end.

(** [cv::subtract(src1, src2, dst, noArray(), dtype)] on two arrays: the
    difference is formed in 32-bit integers and saturated to [dtype].
    The arrays must have the same size and channel count. *)
Definition subtract (src1 src2 : Mat) (dtype : Depth) : result Mat :=
  if decide (Mat_size src1 = Mat_size src2 ∧ Mat_channels src1 = Mat_channels src2)
  then Ok (mkMat (Mat_rows src1) (Mat_cols src1)
                 (CV_MAKETYPE dtype (Mat_channels src1))
                 (zip_with (zip_with (zip_with
                    (λ a b, saturate_cast dtype (a - b)))) (Mat_px src1) (Mat_px src2)))
  else Err CvException.

(** One pixel of [cv::mixChannels]: for every pair [(from, to)], channel
    [from] of the source pixel is copied to channel [to] of the destination
    pixel. *)
Definition mix_px (fromTo : list (nat * nat)) (s d : Pixel) : Pixel :=
  foldl (λ d' ft, match s !! ft.1 with
                  | Some v => <[ft.2 := v]> d'
                  | None => d'
                  end) d fromTo.

(** [cv::mixChannels(&src, 1, &dst, 1, fromTo, npairs)]; returns the
    updated [dst].  Size and depth must agree and the indices must name
    existing channels. *)
Definition mixChannels (src dst : Mat) (fromTo : list (nat * nat)) : result Mat :=
  if decide (Mat_size src = Mat_size dst ∧ Mat_depth src = Mat_depth dst ∧
             Forall (λ ft, ft.1 < Mat_channels src ∧ ft.2 < Mat_channels dst) fromTo)
  then Ok (mkMat (Mat_rows dst) (Mat_cols dst) (Mat_type dst)
                 (zip_with (zip_with (mix_px fromTo)) (Mat_px src) (Mat_px dst)))
  else Err CvException.

(** Channel [c] of a matrix as a single-channel matrix. *)
Definition extract_channel (m : Mat) (c : nat) : Mat :=
  mkMat (Mat_rows m) (Mat_cols m) (CV_MAKETYPE (Mat_depth m) 1)
        (map (map (λ p : Pixel, take 1 (drop c p))) (Mat_px m)).

(** [cv::split(m, mv)]: [mv] becomes the vector of the channels of [m]. *)
Definition split (m : Mat) : list Mat :=
  extract_channel m <$> seq 0 (Mat_channels m).

(** The pixels of the interleaving of [mv]: pixel [(y, x)] is the
    concatenation of the pixels [(y, x)] of the matrices, in order. *)
Definition merged_px (rows cols : nat) (mv : list Mat) : list (list (list Z)) :=
  foldr (λ m acc, zip_with (zip_with app) (Mat_px m) acc)
        (replicate rows (replicate cols [])) mv.

(** [cv::merge(mv, dst)]: interleaves the matrices of [mv], which must be
    non-empty and agree in size and depth. *)
Definition merge (mv : list Mat) : result Mat :=
  match mv with
  | [] => Err CvException
  | m0 :: _ =>
      if decide (Forall (λ m, Mat_size m = Mat_size m0 ∧ Mat_depth m = Mat_depth m0) mv)
      then Ok (mkMat (Mat_rows m0) (Mat_cols m0)
                     (CV_MAKETYPE (Mat_depth m0) (sum_list (Mat_channels <$> mv)))
                     (merged_px (Mat_rows m0) (Mat_cols m0) mv))
      else Err CvException
  end.

(** ** Kernel calls and programs *)

Inductive NormTypes : Type := NORM_L1 | NORM_L2.
Inductive InterpolationFlags : Type := INTER_NEAREST | INTER_LINEAR | INTER_CUBIC | INTER_AREA.
Inductive InpaintFlags : Type := INPAINT_NS | INPAINT_TELEA.

(** The calls to the numeric kernels, with the arguments the source
    passes.  Every kernel answers with its output matrix. *)
Inductive KernelCall : Type :=
| FastNlMeansDenoising (src : Mat) (h : list f32.t)
    (templateWindowSize searchWindowSize : Z) (normType : NormTypes)
| MedianBlur (src : Mat) (ksize : Z)
| Resize (src : Mat) (dsize : Size) (fx fy : f64.t) (interpolation : InterpolationFlags)
| Inpaint (src inpaintMask : Mat) (inpaintRadius : f64.t) (flags : InpaintFlags).

Inductive Prog (A : Type) : Type :=
| Ret (a : A)
| Throw (e : Fault)
| Call (c : KernelCall) (k : Mat → Prog A).
Arguments Ret {A} a.
Arguments Throw {A} e.
Arguments Call {A} c k.

Fixpoint Prog_bind {A B : Type} (f : A → Prog B) (m : Prog A) : Prog B :=
  match m with
  | Ret a => f a
  | Throw e => Throw e
  | Call c k => Call c (λ r, Prog_bind f (k r))
  end.

#[global] Instance Prog_mret : MRet Prog := @Ret.
#[global] Instance Prog_mbind : MBind Prog := @Prog_bind.

(** A deterministic helper inside a program; a fault ends the program. *)
Definition lift {A : Type} (r : result A) : Prog A :=
  match r with Ok a => Ret a | Err e => Throw e end.

(** The kernels as blocking calls. *)
Definition Backend : Type := KernelCall → Mat.

Fixpoint run {A : Type} (B : Backend) (m : Prog A) : result A :=
  match m with
  | Ret a => Ok a
  | Throw e => Err e
  | Call c k => run B (k (B c))
  end.

Fixpoint calls {A : Type} (B : Backend) (m : Prog A) : list KernelCall :=
  match m with
  | Ret _ => []
  | Throw _ => []
  | Call c k => c :: calls B (k (B c))
  end.

Module cv.
Definition fastNlMeansDenoising (src : Mat) (h : list f32.t)
    (templateWindowSize searchWindowSize : Z) (normType : NormTypes) : Prog Mat :=
  Call (FastNlMeansDenoising src h templateWindowSize searchWindowSize normType) Ret.
Definition medianBlur (src : Mat) (ksize : Z) : Prog Mat :=
  Call (MedianBlur src ksize) Ret.
Definition resize (src : Mat) (dsize : Size) (fx fy : f64.t)
    (interpolation : InterpolationFlags) : Prog Mat :=
  Call (Resize src dsize fx fy interpolation) Ret.
Definition inpaint (src inpaintMask : Mat) (inpaintRadius : f64.t)
    (flags : InpaintFlags) : Prog Mat :=
  Call (Inpaint src inpaintMask inpaintRadius flags) Ret.
Definition mixChannels (src dst : Mat) (fromTo : list (nat * nat)) : Prog Mat :=
  lift (mixChannels src dst fromTo).
Definition subtract (src1 src2 : Mat) (dtype : Depth) : Prog Mat :=
  lift (subtract src1 src2 dtype).
Definition merge (mv : list Mat) : Prog Mat := lift (merge mv).
End cv.

(** ** The entry points *)

(** [denoise_nlm_opencv]: the band-split denoise (three steps for three
    channels, one pass otherwise).  Returns the caller's buffer after the
    write-back. *)
Definition denoise_nlm_opencv (data : list Z) (rows cols channels rowStride : Z)
    (h : f32.t) : Prog (list Z) :=
  let step := (rowStride * sizeof_uint16)%Z in
  img ← lift (Mat_of_data rows cols (CV_16UC channels) data step);
  if decide (channels = 3%Z) then
    (* step 1: main denoise *)
    let h1_vec := [f32.zero; h; h] in
    out ← cv.fastNlMeansDenoising img h1_vec 3 11 NORM_L1;
    (* step 2: median filter on channel V *)
    let V := Mat_create (Mat_size out) CV_16U1 in
    let get_V := [(2, 0)] in
    let set_V := [(0, 2)] in
    V ← cv.mixChannels out V get_V;
    V ← cv.medianBlur V 3;
    out ← cv.mixChannels V out set_V;
    (* step 3: low-frequency denoise *)
    let h2_vec := [f32.zero; f32.div h (f32.of_int 8); f32.div h (f32.of_int 4)] in
    sub ← cv.resize out Size_default (f64.div f64.one (f64.of_int 4))
                    (f64.div f64.one (f64.of_int 4)) INTER_AREA;
    sub_dn ← cv.fastNlMeansDenoising sub h2_vec 3 21 NORM_L1;
    sub_res ← cv.subtract sub sub_dn CV_16S;
    res ← cv.resize sub_res (Mat_size out) f64.zero f64.zero INTER_CUBIC;
    out ← cv.subtract out res CV_16U;
    lift (copy_back data rows rowStride out
            (cc ← int_mul cols channels; Ok (cc * sizeof_uint16)%Z))
  else
    let h_vector := [h] in
    dst ← cv.fastNlMeansDenoising img h_vector 3 11 NORM_L1;
    lift (copy_back data rows rowStride dst
            (cc ← int_mul cols channels; Ok (cc * sizeof_uint16)%Z)).

(** [denoise_quattro_highres_opencv]: one denoise pass only. *)
Definition denoise_quattro_highres_opencv (data : list Z)
    (rows cols channels rowStride : Z) (h : f32.t) : Prog (list Z) :=
  let step := (rowStride * sizeof_uint16)%Z in
  img ← lift (Mat_of_data rows cols (CV_16UC channels) data step);
  if decide (channels = 3%Z) then
    let h_vec := [f32.zero; h; f32.mul h (f32.of_int 2)] in
    out ← cv.fastNlMeansDenoising img h_vec 3 11 NORM_L1;
    lift (copy_back data rows rowStride out
            (cc ← int_mul cols channels; Ok (cc * sizeof_uint16)%Z))
  else
    let h_vector := [h] in
    dst ← cv.fastNlMeansDenoising img h_vector 3 11 NORM_L1;
    lift (copy_back data rows rowStride dst
            (cc ← int_mul cols channels; Ok (cc * sizeof_uint16)%Z)).

(** [bicubic_upscale_opencv]: [cv::resize] from a header over [src] into a
    header over [dst].  Returns the destination buffer. *)
Definition bicubic_upscale_opencv (src : list Z)
    (srcRows srcCols channels srcStride : Z)
    (dst : list Z) (dstRows dstCols dstStride : Z) : Prog (list Z) :=
  srcMat ← lift (Mat_of_data srcRows srcCols (CV_16UC channels) src
                              (srcStride * sizeof_uint16)%Z);
  dstMat ← lift (Mat_of_data dstRows dstCols (CV_16UC channels) dst
                              (dstStride * sizeof_uint16)%Z);
  r ← cv.resize srcMat (Mat_size dstMat) f64.zero f64.zero INTER_CUBIC;
  Ret (Mat_store dst dstMat (dstStride * sizeof_uint16)%Z r).

(** The per-channel loop of the defect repair:
    [for (c = 0; c < channels; c++) {
       inpaint(channelMats[c], maskMat, out, ...); channelMats[c] = out; }] *)
Fixpoint inpaint_channels (cs : list nat) (channelMats : list Mat)
    (maskMat : Mat) (inpaintRadius : f64.t) (inpaintMethod : InpaintFlags)
    : Prog (list Mat) :=
  match cs with
  | [] => Ret channelMats
  | c :: cs' =>
      match channelMats !! c with
      | Some m =>
          out ← cv.inpaint m maskMat inpaintRadius inpaintMethod;
          inpaint_channels cs' (<[c := out]> channelMats) maskMat
                           inpaintRadius inpaintMethod
      | None => Throw UndefinedBehaviour
      end
  end.

(** [inpaint_bad_pixels_opencv]: defect repair against one 8-bit mask. *)
Definition inpaint_bad_pixels_opencv (data : list Z)
    (rows cols channels rowStride : Z) (mask : list Z)
    (maskStride inpaintRadius method : Z) : Prog (list Z) :=
  let dataStep := (rowStride * sizeof_uint16)%Z in
  img ← lift (Mat_of_data rows cols (CV_16UC channels) data dataStep);
  maskMat ← lift (Mat_of_data rows cols CV_8U1 mask maskStride);
  let inpaintMethod := if decide (method = 0%Z) then INPAINT_NS else INPAINT_TELEA in
  if decide (channels = 1%Z) then
    out ← cv.inpaint img maskMat (f64.of_int inpaintRadius) inpaintMethod;
    lift (copy_back data rows rowStride out (Ok (cols * sizeof_uint16)%Z))
  else
    let channelMats := split img in
    channelMats ← inpaint_channels (seq 0 (Z.to_nat channels)) channelMats maskMat
                                   (f64.of_int inpaintRadius) inpaintMethod;
    result ← cv.merge channelMats;
    lift (copy_back data rows rowStride result
            (cc ← int_mul cols channels; Ok (cc * sizeof_uint16)%Z)).

(** ** The documented contract of the kernels

    OpenCV documents each kernel's output as having the size and type of
    its input ([resize]: the requested size when one is given).  Statements
    that need the shape of a kernel's answer assume this and nothing else
    about the kernels. *)

Definition same_header (a b : Mat) : Prop :=
  Mat_rows a = Mat_rows b ∧ Mat_cols a = Mat_cols b ∧ Mat_type a = Mat_type b.

Record kernel_contract (B : Backend) : Prop := {
  denoise_shape : ∀ src h tw sw nt,
    Mat_wf src →
    Mat_wf (B (FastNlMeansDenoising src h tw sw nt)) ∧
    same_header (B (FastNlMeansDenoising src h tw sw nt)) src;
  median_shape : ∀ src ksize,
    Mat_wf src →
    Mat_wf (B (MedianBlur src ksize)) ∧ same_header (B (MedianBlur src ksize)) src;
  resize_shape : ∀ src dsize fx fy interp,
    Mat_wf (B (Resize src dsize fx fy interp)) ∧
    Mat_type (B (Resize src dsize fx fy interp)) = Mat_type src ∧
    (0 < width dsize → 0 < height dsize →
     Mat_size (B (Resize src dsize fx fy interp)) = dsize);
  inpaint_shape : ∀ src mask radius flags,
    Mat_wf src → Mat_wf mask → Mat_size mask = Mat_size src →
    Mat_wf (B (Inpaint src mask radius flags)) ∧
    same_header (B (Inpaint src mask radius flags)) src
}.

(** The inpainting kernel returns its input with the masked pixels
    replaced: where the mask is zero the output sample is the input
    sample. *)
Definition inpaint_keeps_unmasked (B : Backend) : Prop :=
  ∀ src mask radius flags y x c,
    Mat_at mask y x 0 = Some 0%Z →
    Mat_at (B (Inpaint src mask radius flags)) y x c = Mat_at src y x c.

(** *** A small executable backend

    Denoise and median return their input; resize samples the nearest
    neighbour (a quarter of the size when no size is given); inpaint writes
    the flag-dependent constant 7 or 9 into the masked pixels. *)
Module ref_backend.
Definition nearest (src : Mat) (h w : nat) : list (list Pixel) :=
  (λ y, (λ x,
      match Mat_px src !! (y * Mat_rows src / h) with
      | Some r =>
          match r !! (x * Mat_cols src / w) with
          | Some p => take (Mat_channels src) (p ++ replicate (Mat_channels src) 0%Z)
          | None => replicate (Mat_channels src) 0%Z
          end
      | None => replicate (Mat_channels src) 0%Z
      end) <$> seq 0 w) <$> seq 0 h.

Definition resize (src : Mat) (dsize : Size) : Mat :=
  let sz := if decide (0 < width dsize ∧ 0 < height dsize) then dsize
            else mkSize ((Mat_cols src + 2) / 4) ((Mat_rows src + 2) / 4) in
  mkMat (height sz) (width sz) (Mat_type src) (nearest src (height sz) (width sz)).

Definition inpaint (src mask : Mat) (flags : InpaintFlags) : Mat :=
  let v := match flags with INPAINT_NS => 7%Z | INPAINT_TELEA => 9%Z end in
  mkMat (Mat_rows src) (Mat_cols src) (Mat_type src)
    (imap (λ y r, imap (λ x p,
        match Mat_at mask y x 0 with
        | Some 0%Z => p
        | _ => replicate (length p) v
        end) r) (Mat_px src)).

Definition B : Backend := λ c,
  match c with
  | FastNlMeansDenoising src _ _ _ _ => src
  | MedianBlur src _ => src
  | Resize src dsize _ _ _ => resize src dsize
  | Inpaint src mask _ flags => inpaint src mask flags
  end.
End ref_backend.

(** Sample inputs: a 4 x 4 image of three channels with row stride 14 (two
    padding samples per row), a mask with row stride 5 that flags pixels
    (1, 1) and (3, 3), and the strength 10. *)
Module sample.
Definition image : list Z := Z.of_nat <$> seq 100 56.
Definition mask : list Z :=
  [0; 0; 0; 0; 9;  0; 1; 0; 0; 9;  0; 0; 0; 0; 9;  0; 0; 0; 2; 9]%Z.
Definition h : f32.t := f32.of_int 10.
Definition small : list Z := [1; 2; 3; 4; 5; 6]%Z.
Definition canvas : list Z := replicate 20 0%Z.
End sample.

(** ** Vocabulary of the statements *)

(** The logical content of a strided buffer, by natural-number indices. *)
Definition view_px (data : list Z) (rows cols ch stride : nat) : list (list (list Z)) :=
  (λ y, chunks ch cols (take (cols * ch) (drop (y * stride) data))) <$> seq 0 rows.

(** The header stays inside the buffer. *)
Definition view_in_bounds (data : list Z) (rows cols channels stride : Z) : Prop :=
  (0 ≤ rows ∧ 0 ≤ cols ∧ 0 ≤ channels ∧ cols * channels ≤ stride ∧
   (rows = 0 ∨ (rows - 1) * stride + cols * channels ≤ Z.of_nat (length data)))%Z.

(** A valid strided view of 16-bit samples: in bounds, and every offset the
    write-back loop computes is an [int]. *)
Definition valid_view (data : list Z) (rows cols channels rowStride : Z) : Prop :=
  view_in_bounds data rows cols channels rowStride ∧
  (rowStride ≤ INT_MAX ∧ (rows - 1) * rowStride ≤ INT_MAX)%Z.

(** The index of sample [(y, x, c)] in a strided buffer:
    [y * rowStride + x * channels + c]. *)
Definition sample_index (rowStride channels : Z) (y x c : nat) : nat :=
  Z.to_nat (Z.of_nat y * rowStride + Z.of_nat x * channels + Z.of_nat c).

(** Buffer index [i] belongs to the logical region of the view. *)
Definition in_view (rows cols channels rowStride : Z) (i : nat) : Prop :=
  ∃ y j : Z, (0 ≤ y < rows ∧ 0 ≤ j < cols * channels ∧ Z.of_nat i = y * rowStride + j)%Z.

(** [data'] is [data] with the logical region replaced by the content of
    [out] and everything else as it was. *)
Definition written_back (data data' : list Z) (rows cols channels rowStride : Z)
    (out : Mat) : Prop :=
  length data' = length data ∧
  (∀ y x c : nat, (Z.of_nat y < rows)%Z → (Z.of_nat x < cols)%Z → (Z.of_nat c < channels)%Z →
     data' !! sample_index rowStride channels y x c = Mat_at out y x c) ∧
  (∀ i : nat, ¬ in_view rows cols channels rowStride i → data' !! i = data !! i).

(** The header of a matrix is that of a [rows x cols x channels] image. *)
Definition has_dims (m : Mat) (rows cols channels : Z) : Prop :=
  Mat_rows m = Z.to_nat rows ∧ Mat_cols m = Z.to_nat cols ∧
  Mat_channels m = Z.to_nat channels.

(** The image a 16-bit entry point sees through its header. *)
Definition image_of (data : list Z) (rows cols channels rowStride : Z) : Mat :=
  mkMat (Z.to_nat rows) (Z.to_nat cols) (CV_16UC channels)
        (view_px data (Z.to_nat rows) (Z.to_nat cols) (Z.to_nat channels)
                 (Z.to_nat rowStride)).

(** The kernel calls [cs] and the matrices [out2] (after step 2) and [out3]
    (the final output) of one run of the three-step pipeline on [img]. *)
Definition band_split_run (B : Backend) (img : Mat) (h : f32.t)
    (cs : list KernelCall) (out2 out3 : Mat) : Prop :=
  let c1 := FastNlMeansDenoising img [f32.zero; h; h] 3 11 NORM_L1 in
  let out1 := B c1 in
  let c2 := MedianBlur (extract_channel out1 2) 3 in
  let V := B c2 in
  let c3 := Resize out2 Size_default (f64.div f64.one (f64.of_int 4))
                   (f64.div f64.one (f64.of_int 4)) INTER_AREA in
  let sub := B c3 in
  let c4 := FastNlMeansDenoising sub
              [f32.zero; f32.div h (f32.of_int 8); f32.div h (f32.of_int 4)]
              3 21 NORM_L1 in
  let sub_dn := B c4 in
  ∃ sub_res : Mat,
    let c5 := Resize sub_res (Mat_size out2) f64.zero f64.zero INTER_CUBIC in
    let res := B c5 in
    cs = [c1; c2; c3; c4; c5] ∧
    mixChannels V out1 [(0, 2)] = Ok out2 ∧
    (∀ y x c, Mat_at out2 y x c =
              if decide (c = 2) then Mat_at V y x 0 else Mat_at out1 y x c) ∧
    subtract sub sub_dn CV_16S = Ok sub_res ∧
    subtract out2 res CV_16U = Ok out3 ∧
    Mat_wf out1 ∧ same_header out1 img ∧
    Mat_wf V ∧ Mat_wf out2 ∧ same_header out2 img ∧
    Mat_wf out3 ∧ same_header out3 img.

(** The defect mask a call sees through its 8-bit header. *)
Definition mask_of (mask : list Z) (rows cols maskStride : Z) : Mat :=
  mkMat (Z.to_nat rows) (Z.to_nat cols) CV_8U1
        (view_px mask (Z.to_nat rows) (Z.to_nat cols) 1 (Z.to_nat maskStride)).

(** The flag the source derives from its [method] argument. *)
Definition inpaint_method (method : Z) : InpaintFlags :=
  if decide (method = 0%Z) then INPAINT_NS else INPAINT_TELEA.

(** The single-channel plane the kernel is given for channel [c]: the
    image itself when it has one channel, else the [c]-th matrix of
    [split]. *)
Definition plane (img : Mat) (channels : Z) (c : nat) : Mat :=
  if decide (channels = 1%Z) then img else extract_channel img c.

(** [Q] holds of the value of the program, if it has one. *)
Definition ensures {A : Type} (B : Backend) (m : Prog A) (Q : A → Prop) : Prop :=
  ∀ a, run B m = Ok a → Q a.

(** Two programs run in lockstep: they issue the same kernel calls, and
    both fail or both finish with values related by [R]. *)
Definition lockstep {A : Type} (B : Backend) (m1 m2 : Prog A) (R : A → A → Prop) : Prop :=
  calls B m1 = calls B m2 ∧
  match run B m1, run B m2 with
  | Ok a1, Ok a2 => R a1 a2
  | Err _, Err _ => True
  | _, _ => False
  end.

(** [data'] differs from [data] at most inside the view. *)
Definition keeps_outside (rows cols channels rowStride : Z) (data data' : list Z) : Prop :=
  length data' = length data ∧
  ∀ i : nat, ¬ in_view rows cols channels rowStride i → data' !! i = data !! i.

(** [d1] and [d2] hold the same image; they may differ in the padding. *)
Definition agree_inside (rows cols channels rowStride : Z) (d1 d2 : list Z) : Prop :=
  length d1 = length d2 ∧
  ∀ i : nat, in_view rows cols channels rowStride i → d1 !! i = d2 !! i.

(** Padding sample [j] of row [y], between the end of the logical row and
    the stride, is the same in [data'] as in [data]. *)
Definition padding_kept (rows cols channels rowStride : Z) (data data' : list Z) : Prop :=
  ∀ y j : Z, (0 ≤ y < rows)%Z → (cols * channels ≤ j < rowStride)%Z →
    data' !! Z.to_nat (y * rowStride + j) = data !! Z.to_nat (y * rowStride + j).


(** * Proofs *)

(** ** The model on the sample inputs *)

(** [10 / 8], [10 / 4] and [10 * 2] in binary32 are 1.25, 2.5 and 20; [1.0 / 4]
    in binary64 is 0.25. *)
Example strength_scaling :
  f32.div sample.h (f32.of_int 8) = S754_finite false 10485760 (-23) ∧
  f32.div sample.h (f32.of_int 4) = S754_finite false 10485760 (-22) ∧
  f32.mul sample.h (f32.of_int 2) = S754_finite false 10485760 (-19) ∧
  f64.div f64.one (f64.of_int 4) = S754_finite false 4503599627370496 (-54).
Proof. repeat split. Qed.

Example saturation :
  saturate_cast CV_16S (100 - 40000) = (-32768)%Z ∧
  saturate_cast CV_16S (65535 - 0) = 32767%Z ∧
  saturate_cast CV_16U (100 - 300) = 0%Z ∧
  saturate_cast CV_16U (65000 - (-1000)) = 65535%Z.
Proof. repeat split. Qed.

(** Channel 2 of a 1 x 2 image, and its replacement. *)
Example mix_channels_small :
  let out := mkMat 1 2 (CV_16UC 3) [[[1; 2; 3]; [4; 5; 6]]]%Z in
  let V := mkMat 1 2 CV_16U1 [[[30]; [60]]]%Z in
  mixChannels out (Mat_create (Mat_size out) CV_16U1) [(2, 0)] =
    Ok (mkMat 1 2 CV_16U1 [[[3]; [6]]]%Z) ∧
  mixChannels V out [(0, 2)] =
    Ok (mkMat 1 2 (CV_16UC 3) [[[1; 2; 30]; [4; 5; 60]]]%Z).
Proof. split; reflexivity. Qed.

(** The sample image has 56 samples: a header of five rows reaches past
    its end. *)
Example header_out_of_bounds :
  run ref_backend.B (denoise_nlm_opencv sample.image 5 4 3 14 sample.h) =
  Err UndefinedBehaviour.
Proof. reflexivity. Qed.

(** Repair of the sample image: the three samples of pixels (1, 1) and
    (3, 3) are replaced, the rest and the padding are as before. *)
Example repair_sample :
  run ref_backend.B (inpaint_bad_pixels_opencv sample.image 4 4 3 14 sample.mask 5 3 0) =
  Ok (list_inserts 51 [7; 7; 7]%Z (list_inserts 17 [7; 7; 7]%Z sample.image)).
Proof. reflexivity. Qed.

(** The same with one channel, where the image is the 4 x 4 corner of
    single samples; method 1 selects the other flag. *)
Example repair_sample_one_channel :
  run ref_backend.B (inpaint_bad_pixels_opencv sample.image 4 4 1 14 sample.mask 5 3 1) =
  Ok (<[45 := 9%Z]> (<[15 := 9%Z]> sample.image)).
Proof. reflexivity. Qed.

(** ** Programs: running a sequence *)

Lemma run_bind {A B : Type} (Bk : Backend) (m : Prog A) (f : A → Prog B) :
  run Bk (m ≫= f) = run Bk m ≫= (λ a, run Bk (f a)).
Proof.
  induction m as [a|e|c k IH]; simpl; [done..|]. apply IH.
Qed.

Lemma calls_bind {A B : Type} (Bk : Backend) (m : Prog A) (f : A → Prog B) :
  calls Bk (m ≫= f) =
  calls Bk m ++ match run Bk m with Ok a => calls Bk (f a) | Err _ => [] end.
Proof.
  induction m as [a|e|c k IH]; simpl; [done..|]. f_equal. apply IH.
Qed.

Lemma run_lift {A : Type} (Bk : Backend) (r : result A) : run Bk (lift r) = r.
Proof. by destruct r. Qed.

Lemma calls_lift {A : Type} (Bk : Backend) (r : result A) : calls Bk (lift r) = [].
Proof. by destruct r. Qed.

(** ** Rows, pixels and spans of a buffer *)

Lemma length_chunks n k l : length (chunks n k l) = k.
Proof. revert l. induction k as [|k IH]; intros l; simpl; [done|]. by rewrite IH. Qed.

Lemma chunks_lookup n k l x :
  x < k → chunks n k l !! x = Some (take n (drop (x * n) l)).
Proof.
  revert l x. induction k as [|k IH]; intros l x Hx; [lia|].
  destruct x as [|x]; simpl.
  - done.
  - rewrite IH by lia. by rewrite drop_drop.
Qed.

Lemma chunks_wf n k l :
  k * n ≤ length l → Forall (λ p : Pixel, length p = n) (chunks n k l).
Proof.
  revert l. induction k as [|k IH]; intros l Hl; simpl; [by constructor|].
  constructor.
  - rewrite length_take. lia.
  - apply IH. rewrite length_drop. lia.
Qed.

(** Two buffers that agree on a span give the same read. *)
Lemma read_span_ext (d1 d2 : list Z) off n :
  length d1 = length d2 →
  (∀ i, (off ≤ Z.of_nat i < off + n)%Z → d1 !! i = d2 !! i) →
  read_span d1 off n = read_span d2 off n.
Proof.
  intros Hlen Hagree. unfold read_span. rewrite Hlen.
  case_decide as Hb; [|done]. f_equal.
  apply list_eq. intros i. rewrite !lookup_take, !lookup_drop.
  case_decide; [|done]. apply Hagree. lia.
Qed.

Lemma read_rows_ok data ys step esz (stride cols ch : nat) :
  (∀ y, (Z.of_nat y * step / esz)%Z = Z.of_nat (y * stride)) →
  (∀ y, y ∈ ys → y * stride + cols * ch ≤ length data) →
  read_rows data ys step esz cols ch =
  Ok ((λ y, chunks ch cols (take (cols * ch) (drop (y * stride) data))) <$> ys).
Proof.
  intros Hoff. induction ys as [|y ys IH]; intros Hin; simpl; [done|].
  unfold read_span. rewrite Hoff.
  rewrite decide_True.
  2:{ pose proof (Hin y ltac:(left)). lia. }
  simpl. rewrite IH.
  2:{ intros y' Hy'. apply Hin. by right. }
  simpl. by rewrite !Nat2Z.id.
Qed.

Lemma Mat_of_data_ok data rows cols channels stride d :
  view_in_bounds data rows cols channels stride →
  Mat_of_data rows cols (CV_MAKETYPE d (Z.to_nat channels)) data (stride * elemSize1 d) =
  Ok (mkMat (Z.to_nat rows) (Z.to_nat cols) (CV_MAKETYPE d (Z.to_nat channels))
            (view_px data (Z.to_nat rows) (Z.to_nat cols) (Z.to_nat channels)
                     (Z.to_nat stride))).
Proof.
  intros (Hr & Hc & Hch & Hs & Hlen). unfold Mat_of_data. simpl.
  rewrite (read_rows_ok _ _ _ _ (Z.to_nat stride)); [done| |].
  - intros y. rewrite Z.mul_assoc, Z.div_mul by (by destruct d). nia.
  - intros y Hy%elem_of_seq. destruct Hlen as [->|Hlen]; [simpl in Hy; lia|]. nia.
Qed.

Lemma view_px_wf data rows cols ch stride ty :
  cn ty = ch →
  (∀ y, y < rows → y * stride + cols * ch ≤ length data) →
  Mat_wf (mkMat rows cols ty (view_px data rows cols ch stride)).
Proof.
  intros Hty Hlen. split; simpl.
  - unfold view_px. by rewrite length_fmap, length_seq.
  - unfold view_px. apply Forall_fmap, Forall_forall. intros y Hy%elem_of_seq. simpl.
    split; [apply length_chunks|]. unfold Mat_channels. simpl. rewrite Hty.
    apply chunks_wf. rewrite length_take, length_drop.
    pose proof (Hlen y ltac:(lia)). lia.
Qed.

Lemma view_px_at data rows cols ch stride ty y x c :
  y < rows → x < cols → c < ch →
  Mat_at (mkMat rows cols ty (view_px data rows cols ch stride)) y x c =
  data !! (y * stride + x * ch + c).
Proof.
  intros Hy Hx Hc. unfold Mat_at, view_px. simpl.
  rewrite list_lookup_fmap, lookup_seq_lt by done. simpl.
  rewrite chunks_lookup by done.
  rewrite lookup_take, decide_True by done.
  rewrite lookup_drop, lookup_take, decide_True by nia.
  rewrite lookup_drop. f_equal. lia.
Qed.

(** ** The write-back loop *)

Lemma join_lookup_uniform {A : Type} (n : nat) (ls : list (list A)) (j i : nat) :
  Forall (λ l, length l = n) ls → i < n →
  mjoin ls !! (j * n + i) = match ls !! j with Some l => l !! i | None => None end.
Proof.
  intros Hall Hi. revert j. induction Hall as [|l ls Hl Hall IH]; intros j; simpl.
  - done.
  - destruct j as [|j]; simpl.
    + by rewrite lookup_app_l by lia.
    + rewrite lookup_app_r by lia. rewrite <- IH. f_equal. lia.
Qed.

Lemma length_join_uniform {A : Type} (n : nat) (ls : list (list A)) :
  Forall (λ l, length l = n) ls → length (mjoin ls) = length ls * n.
Proof.
  induction 1 as [|l ls Hl Hall IH]; simpl; [done|]. rewrite length_app. lia.
Qed.

(** Row [y] of a well-formed matrix, as [memcpy] sees it through
    [ptr(y)]. *)
Lemma Mat_ptr_row (m : Mat) (y : nat) (r : list Pixel) :
  Mat_wf m → Mat_px m !! y = Some r →
  take (Mat_cols m * Mat_channels m) (Mat_ptr m y) = mjoin r ∧
  length (mjoin r) = Mat_cols m * Mat_channels m.
Proof.
  intros [_ Hwf] Hr.
  assert (length (mjoin r) = Mat_cols m * Mat_channels m) as Hlen.
  { eapply Forall_lookup_1 in Hwf as [Hc Hp]; [|done].
    by rewrite (length_join_uniform _ _ Hp), Hc. }
  split; [|done]. unfold Mat_ptr.
  rewrite (drop_S _ _ _ Hr). simpl. rewrite join_app, <- Hlen. apply take_app_length.
Qed.

Lemma memcpy_frame dst off src nbytes dst' :
  memcpy dst off src nbytes = Ok dst' →
  length dst' = length dst ∧
  ∀ i : nat, ¬ (off ≤ Z.of_nat i < off + nbytes / sizeof_uint16)%Z → dst' !! i = dst !! i.
Proof.
  unfold memcpy. case_decide as Hb; [|done]. intros [= <-].
  split; [apply length_inserts|]. intros i Hi.
  destruct (decide (i < Z.to_nat off)).
  - by apply list_lookup_inserts_lt.
  - apply list_lookup_inserts_ge. rewrite length_take. lia.
Qed.

(** Whatever the loop copies, it leaves the buffer's length alone and
    touches only the spans [[y * rowStride, y * rowStride + nbytes / 2)[. *)
Lemma copy_rows_frame ys data rowStride out nbytes data' :
  copy_rows ys data rowStride out nbytes = Ok data' →
  length data' = length data ∧
  ∀ i : nat,
    (∀ y nb, y ∈ ys → nbytes = Ok nb →
       ¬ (Z.of_nat y * rowStride ≤ Z.of_nat i
          < Z.of_nat y * rowStride + nb / sizeof_uint16)%Z) →
    data' !! i = data !! i.
Proof.
  revert data. induction ys as [|y ys IH]; intros data; simpl.
  - intros [= <-]. done.
  - unfold int_mul. case_decide as Hov; [simpl|done].
    destruct nbytes as [nb|e] eqn:Hnb; [simpl|done].
    destruct (memcpy data _ _ nb) as [d1|e] eqn:Hcp; [simpl|done].
    intros Hrest. apply IH in Hrest as [Hlen Hfr].
    apply memcpy_frame in Hcp as [Hlen1 Hfr1].
    split; [congruence|]. intros i Hi.
    rewrite Hfr.
    + apply Hfr1. apply (Hi y nb); [by left|done].
    + intros y' nb' Hy' Hnb'. apply Hi; [by right|done].
Qed.

(** With a well-formed matrix of the expected width, in bounds, the loop
    completes and row [y] of the buffer holds row [y] of the matrix. *)
Lemma copy_rows_ok ys data (rowStride : Z) out (nb : Z) :
  Mat_wf out →
  nb = (Z.of_nat (Mat_cols out * Mat_channels out) * sizeof_uint16)%Z →
  NoDup ys →
  (0 ≤ rowStride)%Z → (Z.of_nat (Mat_cols out * Mat_channels out) ≤ rowStride)%Z →
  (∀ y, y ∈ ys → y < Mat_rows out ∧
      (Z.of_nat y * rowStride ≤ INT_MAX)%Z ∧
      (Z.of_nat y * rowStride + Z.of_nat (Mat_cols out * Mat_channels out)
         ≤ Z.of_nat (length data))%Z) →
  ∃ data', copy_rows ys data rowStride out (Ok nb) = Ok data' ∧
    ∀ y r j, y ∈ ys → Mat_px out !! y = Some r → j < Mat_cols out * Mat_channels out →
      data' !! (Z.to_nat (Z.of_nat y * rowStride) + j) = mjoin r !! j.
Proof.
  intros Hwf -> Hnd Hrs Hw. revert data.
  induction ys as [|y ys IH]; intros data Hys; simpl.
  - eexists. split; [done|]. intros y r j Hy. by apply elem_of_nil in Hy.
  - destruct (Hys y ltac:(left)) as (Hy & Hint & Hlen).
    unfold int_mul. rewrite decide_True by (unfold INT_MIN; lia). simpl.
    destruct (lookup_lt_is_Some_2 (Mat_px out) y) as [r Hr].
    { destruct Hwf as [-> _]. done. }
    destruct (Mat_ptr_row out y r Hwf Hr) as [Hrow Hrlen].
    assert (length (Mat_ptr out y) ≥ Mat_cols out * Mat_channels out) as Hplen.
    { rewrite <- Hrlen, <- Hrow. rewrite length_take. lia. }
    unfold memcpy. rewrite Z.div_mul by done.
    rewrite decide_True by (unfold sizeof_uint16; lia). simpl.
    rewrite Nat2Z.id, Hrow.
    apply NoDup_cons in Hnd as [Hnotin Hnd].
    destruct (IH Hnd (list_inserts (Z.to_nat (Z.of_nat y * rowStride)) (mjoin r) data))
      as (data' & Hrun & Hget).
    { intros y' Hy'. rewrite length_inserts. apply Hys. by right. }
    exists data'. split; [done|].
    intros y' r' j [->|Hy']%elem_of_cons Hr' Hj.
    + assert (r' = r) as -> by congruence.
      apply copy_rows_frame in Hrun as [Hl Hfr]. rewrite Hfr.
      * rewrite list_lookup_inserts by (rewrite ?Hrlen; lia).
        f_equal. lia.
      * intros y' nb' Hy' [= <-]. rewrite Z.div_mul by done.
        assert (y' ≠ y) by (intros ->; done). nia.
    + by apply Hget.
Qed.

Lemma copy_back_frame data rows cols channels rowStride out nbytes data' :
  (∀ nb, nbytes = Ok nb → (nb / sizeof_uint16 = cols * channels)%Z) →
  copy_back data rows rowStride out nbytes = Ok data' →
  length data' = length data ∧
  ∀ i : nat, ¬ in_view rows cols channels rowStride i → data' !! i = data !! i.
Proof.
  intros Hnb Hrun. apply copy_rows_frame in Hrun as [Hlen Hfr].
  split; [done|]. intros i Hi. apply Hfr.
  intros y nb Hy%elem_of_seq Hnbeq Hspan. apply Hi.
  rewrite (Hnb _ Hnbeq) in Hspan.
  exists (Z.of_nat y), (Z.of_nat i - Z.of_nat y * rowStride)%Z. lia.
Qed.

Lemma copy_back_ok data rows cols channels rowStride out nbytes :
  valid_view data rows cols channels rowStride →
  Mat_wf out → has_dims out rows cols channels →
  nbytes = Ok (cols * channels * sizeof_uint16)%Z →
  ∃ data', copy_back data rows rowStride out nbytes = Ok data' ∧
           written_back data data' rows cols channels rowStride out.
Proof.
  intros [(Hr & Hc & Hch & Hs & Hlen) [Hrs Hrr]] Hwf (Hrows & Hcols & Hchs) ->.
  assert (Z.of_nat (Mat_cols out * Mat_channels out) = cols * channels)%Z as Hcc.
  { rewrite Hcols, Hchs. lia. }
  destruct (copy_rows_ok (seq 0 (Z.to_nat rows)) data rowStride out
              (cols * channels * sizeof_uint16)%Z) as (data' & Hrun & Hget).
  - done.
  - by rewrite Hcc.
  - apply NoDup_seq.
  - nia.
  - lia.
  - intros y Hy%elem_of_seq. rewrite Hcc, Hrows.
    destruct Hlen as [->|Hlen]; [simpl in Hy; lia|]. split; [lia|]. split; nia.
  - exists data'. split; [done|].
    destruct (copy_back_frame data rows cols channels rowStride out
                (Ok (cols * channels * sizeof_uint16)%Z) data')
      as [Hl Hfr]; [|done|].
    { intros nb [= <-]. by apply Z.div_mul. }
    split; [done|]. split; [|done].
    intros y x c Hy Hx Hcl.
    destruct (lookup_lt_is_Some_2 (Mat_px out) y) as [r Hr'].
    { destruct Hwf as [-> _]. lia. }
    unfold sample_index.
    replace (Z.to_nat (Z.of_nat y * rowStride + Z.of_nat x * channels + Z.of_nat c))
      with (Z.to_nat (Z.of_nat y * rowStride) + (x * Mat_channels out + c)) by nia.
    rewrite (Hget y r); [|apply elem_of_seq; lia|done|nia].
    unfold Mat_at. rewrite Hr'.
    destruct Hwf as [_ Hall]. eapply Forall_lookup_1 in Hall as [_ Hp]; [|done].
    rewrite (join_lookup_uniform _ _ _ _ Hp) by lia. done.
Qed.

(** Padding is outside the logical region. *)
Lemma padding_not_in_view rows cols channels rowStride (y j : Z) :
  (0 ≤ cols * channels ≤ rowStride)%Z →
  (0 ≤ y)%Z → (cols * channels ≤ j < rowStride)%Z →
  ¬ in_view rows cols channels rowStride (Z.to_nat (y * rowStride + j)).
Proof.
  intros Hs Hy Hj (y' & j' & Hy' & Hj' & Heq).
  rewrite Z2Nat.id in Heq by nia.
  destruct (Z.lt_trichotomy y y') as [?|[->|?]]; nia.
Qed.

(** ** Channels, mixing and subtraction *)

Lemma Mat_wf_lookup (m : Mat) y r :
  Mat_wf m → Mat_px m !! y = Some r →
  length r = Mat_cols m ∧ Forall (λ p : list Z, length p = Mat_channels m) r.
Proof. intros [_ Hall] Hr. by eapply Forall_lookup_1 in Hall. Qed.

Lemma Mat_wf_intro rows cols ty (px : list (list (list Z))) :
  length px = rows →
  (∀ y r, px !! y = Some r → length r = cols ∧
     ∀ x p, r !! x = Some p → length p = cn ty) →
  Mat_wf (mkMat rows cols ty px).
Proof.
  intros Hlen Hrows. split; [done|]. simpl.
  apply Forall_lookup_2. intros y r Hr. destruct (Hrows y r Hr) as [Hc Hp].
  split; [done|]. apply Forall_lookup_2. intros x p Hx. by apply (Hp x).
Qed.

Lemma extract_channel_at (m : Mat) (c y x : nat) :
  Mat_at (extract_channel m c) y x 0 = Mat_at m y x c.
Proof.
  unfold Mat_at, extract_channel. simpl.
  rewrite list_lookup_fmap. destruct (Mat_px m !! y) as [r|]; simpl; [|done].
  rewrite list_lookup_fmap. destruct (r !! x) as [p|]; simpl; [|done].
  rewrite lookup_take, decide_True by lia. rewrite lookup_drop. f_equal. lia.
Qed.

Lemma extract_channel_wf (m : Mat) (c : nat) :
  Mat_wf m → c < Mat_channels m → Mat_wf (extract_channel m c).
Proof.
  intros Hwf Hc. apply Mat_wf_intro.
  - rewrite length_fmap. by destruct Hwf.
  - intros y r' Hr'. rewrite list_lookup_fmap in Hr'.
    destruct (Mat_px m !! y) as [r|] eqn:Hr; [|done]. injection Hr' as <-.
    destruct (Mat_wf_lookup m y r Hwf Hr) as [Hlen Hp].
    split; [by rewrite length_fmap|].
    intros x p' Hp'. rewrite list_lookup_fmap in Hp'.
    destruct (r !! x) as [p|] eqn:Hx; [|done]. injection Hp' as <-.
    eapply Forall_lookup_1 in Hp; [|done].
    rewrite length_take, length_drop. unfold Mat_channels in *. cbn [cn]. lia.
Qed.

(** [mixChannels] with the pair [{2, 0}] into a fresh single-channel
    matrix is the extraction of channel 2. *)
Lemma mixChannels_extract (m : Mat) :
  Mat_wf m → Mat_channels m = 3 → Mat_depth m = CV_16U →
  mixChannels m (Mat_create (Mat_size m) CV_16U1) [(2, 0)] = Ok (extract_channel m 2).
Proof.
  intros Hwf Hcn Hd. unfold mixChannels.
  rewrite decide_True.
  2:{ split; [done|]. split; [done|]. apply Forall_singleton.
      unfold Mat_channels in *. simpl. lia. }
  f_equal. unfold extract_channel. simpl. rewrite Hd. f_equal.
  destruct Hwf as [Hrows Hall].
  rewrite zip_with_replicate_r_eq by done.
  apply Forall_fmap_ext_1. eapply Forall_impl; [exact Hall|].
  intros r [Hlen Hp]. simpl. unfold flip.
  rewrite zip_with_replicate_r_eq by done.
  apply Forall_fmap_ext_1. eapply Forall_impl; [exact Hp|].
  intros p Hpl. simpl. rewrite Hcn in Hpl.
  destruct p as [|a [|b [|c [|? ?]]]]; simplify_eq/=. done.
Qed.

(** [mixChannels] with the pair [{0, 2}] replaces channel 2 and nothing
    else. *)
Lemma mixChannels_insert (V out : Mat) :
  Mat_wf V → Mat_wf out → Mat_size V = Mat_size out → Mat_depth V = Mat_depth out →
  Mat_channels V = 1 → Mat_channels out = 3 →
  ∃ out2, mixChannels V out [(0, 2)] = Ok out2 ∧ Mat_wf out2 ∧ same_header out2 out ∧
    ∀ y x c, Mat_at out2 y x c =
             if decide (c = 2) then Mat_at V y x 0 else Mat_at out y x c.
Proof.
  intros HwV Hwo Hsz Hd HcV Hco. unfold mixChannels.
  rewrite decide_True.
  2:{ split; [done|]. split; [done|]. apply Forall_singleton. simpl. lia. }
  eexists. split; [done|].
  injection Hsz as Hcols Hrows.
  split; [|split; [done|]].
  - apply Mat_wf_intro.
    + rewrite length_zip_with. destruct HwV as [-> _], Hwo as [-> _]. lia.
    + intros y r (rv & ro & -> & Hrv & Hro)%lookup_zip_with_Some.
      destruct (Mat_wf_lookup _ _ _ HwV Hrv) as [Hlv HpV].
      destruct (Mat_wf_lookup _ _ _ Hwo Hro) as [Hlo Hpo].
      split; [rewrite length_zip_with; lia|].
      intros x p (pv & po & -> & Hpv & Hpo')%lookup_zip_with_Some.
      eapply Forall_lookup_1 in Hpo; [|done].
      unfold mix_px. simpl. destruct (pv !! 0); [rewrite length_insert|]; done.
  - intros y x c. unfold Mat_at. simpl.
    rewrite lookup_zip_with.
    destruct (Mat_px V !! y) as [rv|] eqn:Hrv; simpl.
    2:{ apply lookup_ge_None in Hrv.
        rewrite (lookup_ge_None_2 (Mat_px out) y).
        - by case_decide.
        - destruct HwV as [HV _], Hwo as [Ho _]. lia. }
    destruct (Mat_px out !! y) as [ro|] eqn:Hro; simpl.
    2:{ apply lookup_ge_None in Hro. apply lookup_lt_Some in Hrv.
        destruct HwV as [HV _], Hwo as [Ho _]. lia. }
    destruct (Mat_wf_lookup _ _ _ HwV Hrv) as [Hlv HpV].
    destruct (Mat_wf_lookup _ _ _ Hwo Hro) as [Hlo Hpo].
    rewrite lookup_zip_with.
    destruct (rv !! x) as [pv|] eqn:Hpv; simpl.
    2:{ apply lookup_ge_None in Hpv. rewrite (lookup_ge_None_2 ro x) by lia.
        by case_decide. }
    destruct (ro !! x) as [po|] eqn:Hpo'; simpl.
    2:{ apply lookup_ge_None in Hpo'. apply lookup_lt_Some in Hpv. lia. }
    eapply Forall_lookup_1 in HpV; [|done].
    eapply Forall_lookup_1 in Hpo; [|done].
    unfold mix_px. simpl.
    destruct pv as [|v [|? ?]]; simplify_eq/=; [lia| |lia].
    case_decide as Hc.
    + subst c. apply list_lookup_insert_eq. lia.
    + by apply list_lookup_insert_ne.
Qed.

Lemma subtract_ok (a b : Mat) (d : Depth) :
  Mat_size a = Mat_size b → Mat_channels a = Mat_channels b →
  ∃ r, subtract a b d = Ok r ∧
    Mat_rows r = Mat_rows a ∧ Mat_cols r = Mat_cols a ∧
    Mat_type r = CV_MAKETYPE d (Mat_channels a) ∧
    (Mat_wf a → Mat_wf b → Mat_wf r) ∧
    ∀ y x c, Mat_at r y x c =
      match Mat_at a y x c, Mat_at b y x c with
      | Some u, Some v => Some (saturate_cast d (u - v))
      | _, _ => None
      end.
Proof.
  intros Hsz Hcn. unfold subtract. rewrite decide_True by done.
  eexists. split; [done|]. simpl. do 3 (split; [done|]).
  injection Hsz as Hcols Hrows. split.
  - intros Hwa Hwb. apply Mat_wf_intro.
    + rewrite length_zip_with. destruct Hwa as [-> _], Hwb as [-> _]. lia.
    + intros y r (ra & rb & -> & Hra & Hrb)%lookup_zip_with_Some.
      destruct (Mat_wf_lookup _ _ _ Hwa Hra) as [Hla Hpa].
      destruct (Mat_wf_lookup _ _ _ Hwb Hrb) as [Hlb Hpb].
      split; [rewrite length_zip_with; lia|].
      intros x p (pa & pb & -> & Hpa' & Hpb')%lookup_zip_with_Some.
      eapply Forall_lookup_1 in Hpa; [|done].
      eapply Forall_lookup_1 in Hpb; [|done].
      rewrite length_zip_with. simpl. lia.
  - intros y x c. unfold Mat_at. simpl.
    rewrite lookup_zip_with.
    destruct (Mat_px a !! y) as [ra|]; simpl; [|done].
    destruct (Mat_px b !! y) as [rb|]; simpl.
    2:{ destruct (ra !! x) as [pa|]; [|done]. by destruct (pa !! c). }
    rewrite lookup_zip_with.
    destruct (ra !! x) as [pa|]; simpl; [|done].
    destruct (rb !! x) as [pb|]; simpl; [|by destruct (pa !! c)].
    rewrite lookup_zip_with.
    destruct (pa !! c); simpl; [|done]. by destruct (pb !! c).
Qed.

(** ** The three-step pipeline *)

Lemma image_of_ok data rows cols channels rowStride :
  view_in_bounds data rows cols channels rowStride →
  Mat_of_data rows cols (CV_16UC channels) data (rowStride * sizeof_uint16) =
    Ok (image_of data rows cols channels rowStride) ∧
  Mat_wf (image_of data rows cols channels rowStride).
Proof.
  intros Hv. split; [exact (Mat_of_data_ok data rows cols channels rowStride CV_16U Hv)|].
  destruct Hv as (Hr & Hc & Hch & Hs & Hlen).
  apply view_px_wf; [done|]. intros y Hy.
  destruct Hlen as [->|Hlen]; [simpl in Hy; lia|]. nia.
Qed.

Lemma same_header_size a b : same_header a b → Mat_size a = Mat_size b.
Proof. intros (Hr & Hc & _). unfold Mat_size. by rewrite Hr, Hc. Qed.

Lemma same_header_channels a b : same_header a b → Mat_channels a = Mat_channels b.
Proof. intros (_ & _ & Ht). unfold Mat_channels. by rewrite Ht. Qed.

Lemma same_header_depth a b : same_header a b → Mat_depth a = Mat_depth b.
Proof. intros (_ & _ & Ht). unfold Mat_depth. by rewrite Ht. Qed.

Lemma same_header_trans a b c : same_header a b → same_header b c → same_header a c.
Proof. intros (?&?&?) (?&?&?). repeat split; congruence. Qed.

Ltac prog_step :=
  cbn [mbind Prog_mbind Prog_bind mret Prog_mret run calls lift
       cv.fastNlMeansDenoising cv.medianBlur cv.resize cv.inpaint
       cv.mixChannels cv.subtract cv.merge].

Lemma denoise_nlm_3ch (B : Backend) data rows cols rowStride h :
  kernel_contract B →
  valid_view data rows cols 3 rowStride → (0 < rows)%Z → (0 < cols)%Z →
  ∃ out2 out3 data',
    band_split_run B (image_of data rows cols 3 rowStride) h
      (calls B (denoise_nlm_opencv data rows cols 3 rowStride h)) out2 out3 ∧
    run B (denoise_nlm_opencv data rows cols 3 rowStride h) = Ok data' ∧
    written_back data data' rows cols 3 rowStride out3.
Proof.
  intros HB Hv Hrows Hcols.
  destruct (image_of_ok data rows cols 3 rowStride (proj1 Hv)) as [Himg Hwimg].
  set (img := image_of data rows cols 3 rowStride) in *.
  unfold denoise_nlm_opencv, band_split_run.
  rewrite Himg. prog_step. destruct (decide (3 = 3)%Z) as [_|]; [|done].
  unfold cv.mixChannels, cv.subtract. prog_step.
  set (out1 := B (FastNlMeansDenoising img _ 3 11 NORM_L1)).
  destruct (denoise_shape B HB img [f32.zero; h; h] 3%Z 11%Z NORM_L1 Hwimg)
    as [Hw1 Hh1]. fold out1 in Hw1, Hh1.
  assert (Mat_channels out1 = 3) as Hc1 by (by rewrite (same_header_channels _ _ Hh1)).
  assert (Mat_depth out1 = CV_16U) as Hd1 by (by rewrite (same_header_depth _ _ Hh1)).
  rewrite (mixChannels_extract out1 Hw1 Hc1 Hd1). prog_step.
  set (V := B (MedianBlur _ 3)).
  destruct (median_shape B HB (extract_channel out1 2) 3%Z) as [HwV HhV].
  { apply extract_channel_wf; [done|lia]. }
  fold V in HwV, HhV.
  destruct (mixChannels_insert V out1) as (out2 & Hmix & Hw2 & Hh2 & Hat2).
  1-6: try done.
  { by rewrite (same_header_size _ _ HhV). }
  { rewrite (same_header_depth _ _ HhV). done. }
  { by rewrite (same_header_channels _ _ HhV). }
  rewrite Hmix. prog_step.
  set (sub := B (Resize out2 Size_default _ _ INTER_AREA)).
  destruct (resize_shape B HB out2 Size_default (f64.div f64.one (f64.of_int 4))
              (f64.div f64.one (f64.of_int 4)) INTER_AREA) as (Hwsub & Htsub & _).
  fold sub in Hwsub, Htsub.
  set (sub_dn := B (FastNlMeansDenoising sub _ 3 21 NORM_L1)).
  destruct (denoise_shape B HB sub
              [f32.zero; f32.div h (f32.of_int 8); f32.div h (f32.of_int 4)]
              3%Z 21%Z NORM_L1 Hwsub) as [Hwdn Hhdn]. fold sub_dn in Hwdn, Hhdn.
  destruct (subtract_ok sub sub_dn CV_16S)
    as (sub_res & Hsr & Hsr_rows & Hsr_cols & Hsr_ty & Hsr_wf & Hsr_at).
  { symmetry. by apply same_header_size. }
  { symmetry. by apply same_header_channels. }
  rewrite Hsr. prog_step.
  set (res := B (Resize sub_res (Mat_size out2) _ _ INTER_CUBIC)).
  destruct (resize_shape B HB sub_res (Mat_size out2) f64.zero f64.zero INTER_CUBIC)
    as (Hwres & Htres & Hsres). fold res in Hwres, Htres, Hsres.
  assert (same_header out2 img) as Hh2i by (eapply same_header_trans; eauto).
  assert (Mat_size res = Mat_size out2) as Hszres.
  { destruct Hh2i as (Hr2 & Hcc2 & _).
    apply Hsres; simpl; [rewrite Hcc2|rewrite Hr2]; simpl; lia. }
  destruct (subtract_ok out2 res CV_16U)
    as (out3 & Hs3 & H3_rows & H3_cols & H3_ty & H3_wf & H3_at).
  { done. }
  { unfold Mat_channels in *. rewrite Htres, Hsr_ty. simpl. by rewrite Htsub. }
  rewrite Hs3. prog_step.
  assert (same_header out3 img) as Hh3.
  { destruct Hh2i as (Hr2 & Hcc2 & Ht2). repeat split; [congruence..|].
    rewrite H3_ty. unfold Mat_channels. by rewrite Ht2. }
  destruct (copy_back_ok data rows cols 3 rowStride out3
              (cc ← int_mul cols 3; Ok (cc * sizeof_uint16)%Z))
    as (data' & Hcopy & Hwb); [done|by apply H3_wf| |..].
  { destruct Hh3 as (Hr3 & Hcc3 & Ht3). unfold has_dims, Mat_channels.
    by rewrite Hr3, Hcc3, Ht3. }
  { unfold int_mul. rewrite decide_True; [done|].
    destruct Hv as [(?&?&?&?&?) [? ?]]. unfold INT_MIN. lia. }
  exists out2, out3, data'. rewrite Hcopy. prog_step.
  split; [|done].
  exists sub_res. split_and!; try done. by apply H3_wf.
Qed.

(** ** The single-pass paths *)

(** One denoise call followed by the write-back. *)
Lemma single_pass_run (B : Backend) data rows cols channels rowStride hv :
  kernel_contract B →
  valid_view data rows cols channels rowStride →
  let img := image_of data rows cols channels rowStride in
  let out := B (FastNlMeansDenoising img hv 3 11 NORM_L1) in
  ∃ data',
    run B (dst ← cv.fastNlMeansDenoising img hv 3 11 NORM_L1;
           lift (copy_back data rows rowStride dst
                   (cc ← int_mul cols channels; Ok (cc * sizeof_uint16)%Z))) = Ok data' ∧
    written_back data data' rows cols channels rowStride out.
Proof.
  intros HB Hv img out.
  destruct (image_of_ok data rows cols channels rowStride (proj1 Hv)) as [_ Hwimg].
  destruct (denoise_shape B HB img hv 3%Z 11%Z NORM_L1 Hwimg) as [Hw Hh].
  fold img out in Hw, Hh.
  destruct (copy_back_ok data rows cols channels rowStride out
              (cc ← int_mul cols channels; Ok (cc * sizeof_uint16)%Z))
    as (data' & Hcopy & Hwb); [done|done| |..].
  { destruct Hh as (Hr & Hc & Ht). unfold has_dims, Mat_channels.
    by rewrite Hr, Hc, Ht. }
  { unfold int_mul. rewrite decide_True; [done|].
    destruct Hv as [(?&?&?&?&?) [? ?]]. unfold INT_MIN. nia. }
  exists data'. prog_step. fold img out. by rewrite Hcopy.
Qed.

Lemma denoise_nlm_calls_1 (B : Backend) data rows cols channels rowStride h :
  view_in_bounds data rows cols channels rowStride → channels ≠ 3%Z →
  calls B (denoise_nlm_opencv data rows cols channels rowStride h) =
  [FastNlMeansDenoising (image_of data rows cols channels rowStride) [h] 3 11 NORM_L1].
Proof.
  intros Hv Hch. unfold denoise_nlm_opencv.
  rewrite (proj1 (image_of_ok _ _ _ _ _ Hv)). prog_step.
  rewrite decide_False by done. prog_step. by rewrite calls_lift.
Qed.

Lemma denoise_nlm_run_1 (B : Backend) data rows cols channels rowStride h :
  kernel_contract B → valid_view data rows cols channels rowStride → channels ≠ 3%Z →
  ∃ data',
    run B (denoise_nlm_opencv data rows cols channels rowStride h) = Ok data' ∧
    written_back data data' rows cols channels rowStride
      (B (FastNlMeansDenoising (image_of data rows cols channels rowStride)
            [h] 3 11 NORM_L1)).
Proof.
  intros HB Hv Hch.
  destruct (single_pass_run B data rows cols channels rowStride [h] HB Hv)
    as (data' & Hrun & Hwb).
  exists data'. split; [|done]. unfold denoise_nlm_opencv.
  rewrite (proj1 (image_of_ok _ _ _ _ _ (proj1 Hv))). prog_step.
  rewrite decide_False by done. exact Hrun.
Qed.

Lemma quattro_calls (B : Backend) data rows cols channels rowStride h :
  view_in_bounds data rows cols channels rowStride →
  calls B (denoise_quattro_highres_opencv data rows cols channels rowStride h) =
  [FastNlMeansDenoising (image_of data rows cols channels rowStride)
     (if decide (channels = 3%Z) then [f32.zero; h; f32.mul h (f32.of_int 2)] else [h])
     3 11 NORM_L1].
Proof.
  intros Hv. unfold denoise_quattro_highres_opencv.
  rewrite (proj1 (image_of_ok _ _ _ _ _ Hv)). prog_step.
  case_decide; prog_step; by rewrite calls_lift.
Qed.

Lemma quattro_run (B : Backend) data rows cols channels rowStride h :
  kernel_contract B → valid_view data rows cols channels rowStride →
  ∃ data',
    run B (denoise_quattro_highres_opencv data rows cols channels rowStride h) = Ok data' ∧
    written_back data data' rows cols channels rowStride
      (B (FastNlMeansDenoising (image_of data rows cols channels rowStride)
            (if decide (channels = 3%Z) then [f32.zero; h; f32.mul h (f32.of_int 2)]
             else [h]) 3 11 NORM_L1)).
Proof.
  intros HB Hv.
  destruct (single_pass_run B data rows cols channels rowStride
              (if decide (channels = 3%Z) then [f32.zero; h; f32.mul h (f32.of_int 2)]
               else [h]) HB Hv) as (data' & Hrun & Hwb).
  exists data'. split; [|done]. unfold denoise_quattro_highres_opencv.
  rewrite (proj1 (image_of_ok _ _ _ _ _ (proj1 Hv))). prog_step.
  case_decide; exact Hrun.
Qed.

(** The first two calls of the three-channel path need no assumption on
    the kernels: the denoise of the whole image, then (unless [mixChannels]
    rejects the answer) the median filter. *)
Lemma denoise_nlm_3ch_head (B : Backend) data rows cols rowStride h :
  view_in_bounds data rows cols 3 rowStride →
  ∃ rest,
    calls B (denoise_nlm_opencv data rows cols 3 rowStride h) =
      FastNlMeansDenoising (image_of data rows cols 3 rowStride)
        [f32.zero; h; h] 3 11 NORM_L1 :: rest ∧
    (rest = [] ∨ ∃ V rest', rest = MedianBlur V 3 :: rest').
Proof.
  intros Hv. unfold denoise_nlm_opencv.
  rewrite (proj1 (image_of_ok _ _ _ _ _ Hv)). prog_step.
  destruct (decide (3 = 3)%Z) as [_|]; [|done]. prog_step.
  eexists. split; [done|]. unfold cv.mixChannels.
  destruct (mixChannels _ _ [(2, 0)]) as [V|e]; prog_step.
  - right. eauto.
  - by left.
Qed.

(** ** Split, per-channel loop and merge *)

Lemma mask_of_ok mask rows cols maskStride :
  view_in_bounds mask rows cols 1 maskStride →
  Mat_of_data rows cols CV_8U1 mask maskStride = Ok (mask_of mask rows cols maskStride) ∧
  Mat_wf (mask_of mask rows cols maskStride).
Proof.
  intros Hv. split.
  - pose proof (Mat_of_data_ok mask rows cols 1 maskStride CV_8U Hv) as H.
    simpl in H. by rewrite Z.mul_1_r in H.
  - destruct Hv as (Hr & Hc & Hch & Hs & Hlen).
    apply view_px_wf; [done|]. intros y Hy.
    destruct Hlen as [->|Hlen]; [simpl in Hy; lia|]. nia.
Qed.

Lemma merged_px_spec (rows cols : nat) (mv : list Mat) :
  Forall (λ m, Mat_wf m ∧ Mat_rows m = rows ∧ Mat_cols m = cols ∧ Mat_channels m = 1) mv →
  length (merged_px rows cols mv) = rows ∧
  ∀ y r, merged_px rows cols mv !! y = Some r →
    length r = cols ∧
    ∀ x p, r !! x = Some p →
      length p = length mv ∧
      ∀ c, p !! c = match mv !! c with Some m => Mat_at m y x 0 | None => None end.
Proof.
  induction 1 as [|m mv (Hwf & Hr & Hc & Hcn) Hall [IHlen IH]]; simpl.
  - split; [by rewrite length_replicate|].
    intros y r [-> _]%lookup_replicate. split; [by rewrite length_replicate|].
    intros x p [-> _]%lookup_replicate. split; [done|]. intros c. by destruct c.
  - fold (merged_px rows cols mv).
    split; [rewrite length_zip_with; destruct Hwf as [-> _]; lia|].
    intros y r (rm & ra & -> & Hrm & Hra)%lookup_zip_with_Some.
    destruct (Mat_wf_lookup _ _ _ Hwf Hrm) as [Hlm Hpm].
    destruct (IH y ra Hra) as [Hla IHp].
    split; [rewrite length_zip_with; lia|].
    intros x p (pm & pa & -> & Hpm' & Hpa)%lookup_zip_with_Some.
    eapply Forall_lookup_1 in Hpm; [|done].
    destruct (IHp x pa Hpa) as [Hlp IHc].
    rewrite Hcn in Hpm. destruct pm as [|v [|? ?]]; simplify_eq/=.
    split; [lia|]. intros [|c]; simpl.
    + unfold Mat_at. by rewrite Hrm, Hpm'.
    + apply IHc.
Qed.

Lemma merge_ok (mv : list Mat) (rows cols : nat) (d : Depth) :
  mv ≠ [] →
  Forall (λ m, Mat_wf m ∧ Mat_rows m = rows ∧ Mat_cols m = cols ∧
               Mat_type m = CV_MAKETYPE d 1) mv →
  ∃ r, merge mv = Ok r ∧ Mat_wf r ∧
       Mat_rows r = rows ∧ Mat_cols r = cols ∧ Mat_type r = CV_MAKETYPE d (length mv) ∧
       ∀ y x c, Mat_at r y x c =
                match mv !! c with Some m => Mat_at m y x 0 | None => None end.
Proof.
  intros Hne Hall.
  assert (merge mv = Ok (mkMat rows cols (CV_MAKETYPE d (sum_list (Mat_channels <$> mv)))
                               (merged_px rows cols mv))) as Hmerge.
  { destruct mv as [|m0 mv0]; [done|]. unfold merge.
    pose proof Hall as [(_ & Hr0 & Hc0 & Ht0) _]%Forall_cons.
    assert (Mat_depth m0 = d) as Hd0 by (unfold Mat_depth; by rewrite Ht0).
    rewrite decide_True; [by rewrite Hr0, Hc0, Hd0|].
    eapply Forall_impl; [exact Hall|]. intros m (_ & Hr & Hc & Ht). simpl.
    unfold Mat_size, Mat_depth. by rewrite Hr, Hc, Ht, Hr0, Hc0, Ht0. }
  assert (sum_list (Mat_channels <$> mv) = length mv) as Hsum.
  { clear -Hall. induction Hall as [|m mv (_ & _ & _ & Ht) _ IH]; [done|].
    rewrite fmap_cons. cbn [sum_list length]. rewrite IH.
    unfold Mat_channels. by rewrite Ht. }
  destruct (merged_px_spec rows cols mv) as [Hlen Hspec].
  { eapply Forall_impl; [exact Hall|]. intros m (? & ? & ? & Ht). simpl.
    unfold Mat_channels. by rewrite Ht. }
  rewrite Hsum in Hmerge.
  exists (mkMat rows cols (CV_MAKETYPE d (length mv)) (merged_px rows cols mv)).
  split; [exact Hmerge|].
  split; [|split_and!; try done].
  - apply Mat_wf_intro; [done|]. intros y r Hr. destruct (Hspec y r Hr) as [Hl Hp].
    split; [done|]. intros x p Hx. by destruct (Hp x p Hx) as [-> _].
  - intros y x c. unfold Mat_at at 1. simpl.
    destruct (merged_px rows cols mv !! y) as [r|] eqn:Hr.
    + destruct (Hspec y r Hr) as [Hl Hp].
      destruct (r !! x) as [p|] eqn:Hx.
      * by destruct (Hp x p Hx) as [_ ->].
      * destruct (mv !! c) as [m|] eqn:Hm; [|done].
        eapply Forall_lookup_1 in Hall as (Hwm & Hrm & Hcm & _); [|done].
        unfold Mat_at. destruct (Mat_px m !! y) as [rm|] eqn:Hrm'; [|done].
        destruct (Mat_wf_lookup _ _ _ Hwm Hrm') as [Hlm _].
        apply lookup_ge_None in Hx. rewrite (lookup_ge_None_2 rm x); [done|lia].
    + destruct (mv !! c) as [m|] eqn:Hm; [|done].
      eapply Forall_lookup_1 in Hall as (Hwm & Hrm & Hcm & _); [|done].
      unfold Mat_at. apply lookup_ge_None in Hr.
      rewrite (lookup_ge_None_2 (Mat_px m) y); [done|]. destruct Hwm as [-> _]. lia.
Qed.

(** The loop calls the kernel once per channel, each time on the channel
    as [split] produced it, and replaces every entry by the answer. *)
Lemma inpaint_channels_spec (B : Backend) (cs : list nat) (n : nat) (f : nat → Mat)
    (maskMat : Mat) (radius : f64.t) (flags : InpaintFlags) :
  NoDup cs → (∀ c, c ∈ cs → c < n) →
  calls B (inpaint_channels cs (f <$> seq 0 n) maskMat radius flags) =
    (λ c, Inpaint (f c) maskMat radius flags) <$> cs ∧
  run B (inpaint_channels cs (f <$> seq 0 n) maskMat radius flags) =
    Ok ((λ i, if decide (i ∈ cs) then B (Inpaint (f i) maskMat radius flags) else f i)
          <$> seq 0 n).
Proof.
  intros Hnd. revert f. induction Hnd as [|c cs Hnotin Hnd IH]; intros f Hlt; simpl.
  - done.
  - rewrite list_lookup_fmap, lookup_seq_lt by (apply Hlt; left).
    cbn [fmap option_fmap option_map Nat.add]. prog_step.
    set (out := B (Inpaint (f c) maskMat radius flags)).
    assert (<[c:=out]> (f <$> seq 0 n) =
            (λ i, if decide (i = c) then out else f i) <$> seq 0 n) as ->.
    { apply list_eq. intros i. rewrite list_lookup_fmap.
      destruct (decide (i = c)) as [->|Hne].
      - rewrite list_lookup_insert_eq by (rewrite length_fmap, length_seq; apply Hlt; left).
        rewrite lookup_seq_lt by (apply Hlt; left). simpl. by rewrite decide_True.
      - rewrite list_lookup_insert_ne by done. rewrite list_lookup_fmap.
        destruct (seq 0 n !! i) as [j|] eqn:Hj; [|done]. simpl.
        apply lookup_seq in Hj as [-> _]. by rewrite decide_False. }
    destruct (IH (λ i, if decide (i = c) then out else f i)) as [Hcalls Hrun].
    { intros c' Hc'. apply Hlt. by right. }
    rewrite Hcalls, Hrun. split.
    + f_equal. apply Forall_fmap_ext_1, Forall_forall. intros c' Hc'.
      rewrite decide_False; [done|]. by intros ->.
    + f_equal. apply list_fmap_ext. intros i j _.
      destruct (decide (j = c)) as [->|Hne].
      * rewrite decide_False by done. rewrite decide_True; [done|by left].
      * destruct (decide (j ∈ cs)) as [Hin|Hnin].
        -- rewrite decide_True; [done|by right].
        -- rewrite decide_False; [done|]. by intros [?|?]%elem_of_cons.
Qed.

(** ** Defect repair *)

Lemma inpaint_calls (B : Backend) data rows cols channels rowStride
    mask maskStride inpaintRadius method :
  view_in_bounds data rows cols channels rowStride →
  view_in_bounds mask rows cols 1 maskStride →
  calls B (inpaint_bad_pixels_opencv data rows cols channels rowStride
             mask maskStride inpaintRadius method) =
  (λ c, Inpaint (plane (image_of data rows cols channels rowStride) channels c)
                (mask_of mask rows cols maskStride) (f64.of_int inpaintRadius)
                (inpaint_method method)) <$> seq 0 (Z.to_nat channels).
Proof.
  intros Hv Hm. unfold inpaint_bad_pixels_opencv.
  rewrite (proj1 (image_of_ok _ _ _ _ _ Hv)). prog_step.
  rewrite (proj1 (mask_of_ok _ _ _ _ Hm)). prog_step.
  fold (inpaint_method method). unfold plane.
  destruct (decide (channels = 1%Z)) as [->|Hne].
  - prog_step. by rewrite calls_lift.
  - rewrite calls_bind. unfold split.
    destruct (inpaint_channels_spec B (seq 0 (Z.to_nat channels)) (Z.to_nat channels)
                (extract_channel (image_of data rows cols channels rowStride))
                (mask_of mask rows cols maskStride) (f64.of_int inpaintRadius)
                (inpaint_method method)) as [Hcalls Hrun].
    { apply NoDup_seq. }
    { intros c Hc%elem_of_seq. lia. }
    replace (Mat_channels (image_of data rows cols channels rowStride))
      with (Z.to_nat channels) by done.
    rewrite Hcalls, Hrun. unfold cv.merge. rewrite calls_bind, calls_lift. simpl.
    destruct (run B (lift _)); simpl; rewrite ?calls_lift; by rewrite app_nil_r.
Qed.

Lemma inpaint_run_1 (B : Backend) data rows cols rowStride
    mask maskStride inpaintRadius method :
  kernel_contract B →
  valid_view data rows cols 1 rowStride →
  view_in_bounds mask rows cols 1 maskStride →
  ∃ data',
    run B (inpaint_bad_pixels_opencv data rows cols 1 rowStride
             mask maskStride inpaintRadius method) = Ok data' ∧
    written_back data data' rows cols 1 rowStride
      (B (Inpaint (image_of data rows cols 1 rowStride)
                  (mask_of mask rows cols maskStride) (f64.of_int inpaintRadius)
                  (inpaint_method method))).
Proof.
  intros HB Hv Hm.
  destruct (image_of_ok _ _ _ _ _ (proj1 Hv)) as [Himg Hwimg].
  destruct (mask_of_ok _ _ _ _ Hm) as [Hmask Hwmask].
  set (img := image_of data rows cols 1 rowStride) in *.
  set (maskMat := mask_of mask rows cols maskStride) in *.
  destruct (inpaint_shape B HB img maskMat (f64.of_int inpaintRadius)
              (inpaint_method method) Hwimg Hwmask eq_refl) as [Hw Hh].
  destruct (copy_back_ok data rows cols 1 rowStride
              (B (Inpaint img maskMat (f64.of_int inpaintRadius) (inpaint_method method)))
              (Ok (cols * sizeof_uint16)%Z))
    as (data' & Hcopy & Hwb); [done|done| |by rewrite Z.mul_1_r|].
  { destruct Hh as (Hr & Hc & Ht). unfold has_dims, Mat_channels.
    by rewrite Hr, Hc, Ht. }
  exists data'. split; [|done]. unfold inpaint_bad_pixels_opencv.
  rewrite Himg. prog_step. rewrite Hmask. prog_step.
  fold (inpaint_method method). rewrite decide_True by done. prog_step.
  by rewrite Hcopy.
Qed.

Lemma inpaint_run_multi (B : Backend) data rows cols channels rowStride
    mask maskStride inpaintRadius method :
  kernel_contract B →
  valid_view data rows cols channels rowStride →
  view_in_bounds mask rows cols 1 maskStride →
  (1 < channels)%Z →
  let img := image_of data rows cols channels rowStride in
  let answer c := B (Inpaint (extract_channel img c) (mask_of mask rows cols maskStride)
                             (f64.of_int inpaintRadius) (inpaint_method method)) in
  ∃ result data',
    merge (answer <$> seq 0 (Z.to_nat channels)) = Ok result ∧
    run B (inpaint_bad_pixels_opencv data rows cols channels rowStride
             mask maskStride inpaintRadius method) = Ok data' ∧
    written_back data data' rows cols channels rowStride result ∧
    ∀ y x c, c < Z.to_nat channels → Mat_at result y x c = Mat_at (answer c) y x 0.
Proof.
  intros HB Hv Hm Hch img answer.
  destruct (image_of_ok _ _ _ _ _ (proj1 Hv)) as [Himg Hwimg].
  destruct (mask_of_ok _ _ _ _ Hm) as [Hmask Hwmask].
  fold img in Himg, Hwimg.
  set (maskMat := mask_of mask rows cols maskStride) in *.
  set (n := Z.to_nat channels).
  assert (∀ c, c < n → Mat_wf (answer c) ∧ same_header (answer c) (extract_channel img c))
    as Hans.
  { intros c Hc. apply (inpaint_shape B HB); [|done|done].
    apply extract_channel_wf; [done|]. exact Hc. }
  destruct (merge_ok (answer <$> seq 0 n) (Z.to_nat rows) (Z.to_nat cols) CV_16U)
    as (result & Hmerge & Hwr & Hrr & Hrc & Hrt & Hrat).
  { destruct n as [|n'] eqn:Hn; [lia|]. done. }
  { apply Forall_fmap, Forall_forall. intros c Hc%elem_of_seq. simpl.
    destruct (Hans c ltac:(lia)) as [Hw (Hr & Hc' & Ht)]. by rewrite Hr, Hc', Ht. }
  rewrite length_fmap, length_seq in Hrt.
  destruct (copy_back_ok data rows cols channels rowStride result
              (cc ← int_mul cols channels; Ok (cc * sizeof_uint16)%Z))
    as (data' & Hcopy & Hwb); [done|done| |..].
  { unfold has_dims, Mat_channels. by rewrite Hrr, Hrc, Hrt. }
  { unfold int_mul. rewrite decide_True; [done|].
    destruct Hv as [(?&?&?&?&?) [? ?]]. unfold INT_MIN. nia. }
  exists result, data'. split; [done|]. split; [|split; [done|]].
  - unfold inpaint_bad_pixels_opencv.
    rewrite Himg. prog_step. rewrite Hmask. prog_step.
    fold (inpaint_method method). rewrite decide_False by lia.
    rewrite run_bind. unfold split.
    replace (Mat_channels img) with n by done.
    destruct (inpaint_channels_spec B (seq 0 n) n (extract_channel img) maskMat
                (f64.of_int inpaintRadius) (inpaint_method method)) as [_ Hrun].
    { apply NoDup_seq. }
    { intros c Hc%elem_of_seq. lia. }
    fold n. rewrite Hrun. simpl.
    assert ((λ i, if decide (i ∈ seq 0 n)
                  then B (Inpaint (extract_channel img i) maskMat
                            (f64.of_int inpaintRadius) (inpaint_method method))
                  else extract_channel img i) <$> seq 0 n = answer <$> seq 0 n) as ->.
    { apply Forall_fmap_ext_1, Forall_forall. intros c Hc. by rewrite decide_True. }
    unfold cv.merge. rewrite Hmerge. prog_step. by rewrite Hcopy.
  - intros y x c Hc. rewrite Hrat, list_lookup_fmap, lookup_seq_lt by done. done.
Qed.

(** ** Writing through a destination header *)

Lemma store_rows_frame data y0 rs step esz n :
  length (store_rows data y0 rs step esz n) = length data ∧
  ∀ i : nat,
    (∀ k, k < length rs →
       ¬ (Z.to_nat (Z.of_nat (y0 + k) * step / esz) ≤ i
          < Z.to_nat (Z.of_nat (y0 + k) * step / esz) + n)) →
    store_rows data y0 rs step esz n !! i = data !! i.
Proof.
  revert data y0. induction rs as [|r rs IH]; intros data y0; simpl; [done|].
  destruct (IH (list_inserts (Z.to_nat (Z.of_nat y0 * step / esz)) (take n (mjoin r)) data)
              (S y0)) as [Hlen Hfr].
  split; [by rewrite Hlen, length_inserts|].
  intros i Hi. rewrite Hfr.
  - specialize (Hi 0 ltac:(lia)). rewrite Nat.add_0_r in Hi.
    destruct (decide (i < Z.to_nat (Z.of_nat y0 * step / esz))).
    + by apply list_lookup_inserts_lt.
    + apply list_lookup_inserts_ge. rewrite length_take. lia.
  - intros k Hk. specialize (Hi (S k) ltac:(lia)).
    by replace (S y0 + k) with (y0 + S k) by lia.
Qed.

Lemma store_rows_content data y0 rs (stride : nat) step esz n :
  (∀ y, Z.to_nat (Z.of_nat y * step / esz) = y * stride) →
  n ≤ stride →
  Forall (λ r : list (list Z), length (mjoin r) = n) rs →
  (∀ k, k < length rs → (y0 + k) * stride + n ≤ length data) →
  ∀ k r j, rs !! k = Some r → j < n →
    store_rows data y0 rs step esz n !! ((y0 + k) * stride + j) = mjoin r !! j.
Proof.
  intros Hoff Hn Hall. revert data y0.
  induction Hall as [|r0 rs Hr0 Hall IH]; intros data y0 Hlen k r j Hk Hj; [done|].
  simpl. destruct k as [|k]; simpl in Hk.
  - injection Hk as ->.
    destruct (store_rows_frame
                (list_inserts (Z.to_nat (Z.of_nat y0 * step / esz)) (take n (mjoin r)) data)
                (S y0) rs step esz n) as [_ Hfr].
    rewrite Hfr.
    + rewrite Hoff, Nat.add_0_r.
      rewrite list_lookup_inserts.
      * replace (y0 * stride + j - y0 * stride) with j by lia.
        by rewrite lookup_take, decide_True by done.
      * rewrite length_take. lia.
      * specialize (Hlen 0 ltac:(simpl; lia)). lia.
    + intros k' _. rewrite Hoff. nia.
  - replace (y0 + S k) with (S y0 + k) by lia. apply IH; [|done|done].
    intros k' Hk'. rewrite length_inserts.
    specialize (Hlen (S k') ltac:(simpl; lia)). by replace (S y0 + k') with (y0 + S k') by lia.
Qed.

Lemma Mat_store_frame data hdr step r :
  Mat_wf hdr →
  length (Mat_store data hdr step r) = length data ∧
  ∀ i : nat,
    (∀ y, y < Mat_rows hdr →
       ¬ (Z.to_nat (Z.of_nat y * step / elemSize1 (Mat_depth hdr)) ≤ i
          < Z.to_nat (Z.of_nat y * step / elemSize1 (Mat_depth hdr))
            + Mat_cols hdr * Mat_channels hdr)) →
    Mat_store data hdr step r !! i = data !! i.
Proof.
  intros Hwf. unfold Mat_store. case_decide; [|done].
  destruct (store_rows_frame data 0 (take (Mat_rows hdr) (Mat_px r)) step
              (elemSize1 (Mat_depth hdr)) (Mat_cols hdr * Mat_channels hdr)) as [Hlen Hfr].
  split; [done|]. intros i Hi. apply Hfr. intros k Hk. simpl. apply Hi.
  rewrite length_take in Hk. lia.
Qed.

Lemma bicubic_calls (B : Backend) src srcRows srcCols channels srcStride
    dst dstRows dstCols dstStride :
  view_in_bounds src srcRows srcCols channels srcStride →
  view_in_bounds dst dstRows dstCols channels dstStride →
  calls B (bicubic_upscale_opencv src srcRows srcCols channels srcStride
             dst dstRows dstCols dstStride) =
  [Resize (image_of src srcRows srcCols channels srcStride)
          (mkSize (Z.to_nat dstCols) (Z.to_nat dstRows)) f64.zero f64.zero INTER_CUBIC].
Proof.
  intros Hs Hd. unfold bicubic_upscale_opencv.
  rewrite (proj1 (image_of_ok _ _ _ _ _ Hs)). prog_step.
  rewrite (proj1 (image_of_ok _ _ _ _ _ Hd)). prog_step. done.
Qed.

Lemma bicubic_run (B : Backend) src srcRows srcCols channels srcStride
    dst dstRows dstCols dstStride :
  kernel_contract B →
  view_in_bounds src srcRows srcCols channels srcStride →
  view_in_bounds dst dstRows dstCols channels dstStride →
  (0 < dstRows)%Z → (0 < dstCols)%Z →
  ∃ dst',
    run B (bicubic_upscale_opencv src srcRows srcCols channels srcStride
             dst dstRows dstCols dstStride) = Ok dst' ∧
    written_back dst dst' dstRows dstCols channels dstStride
      (B (Resize (image_of src srcRows srcCols channels srcStride)
                 (mkSize (Z.to_nat dstCols) (Z.to_nat dstRows))
                 f64.zero f64.zero INTER_CUBIC)).
Proof.
  intros HB Hs Hd Hrows Hcols.
  set (srcMat := image_of src srcRows srcCols channels srcStride).
  set (dstMat := image_of dst dstRows dstCols channels dstStride).
  set (r := B (Resize srcMat _ _ _ _)).
  destruct (resize_shape B HB srcMat (mkSize (Z.to_nat dstCols) (Z.to_nat dstRows))
              f64.zero f64.zero INTER_CUBIC) as (Hwr & Htr & Hsr).
  fold r in Hwr, Htr, Hsr. specialize (Hsr ltac:(simpl; lia) ltac:(simpl; lia)).
  destruct (image_of_ok _ _ _ _ _ Hd) as [Hdst Hwdst]. fold dstMat in Hdst, Hwdst.
  exists (Mat_store dst dstMat (dstStride * sizeof_uint16) r). split.
  { unfold bicubic_upscale_opencv.
    rewrite (proj1 (image_of_ok _ _ _ _ _ Hs)). prog_step.
    rewrite Hdst. prog_step. done. }
  destruct Hd as (Hdr & Hdc & Hch & Hds & Hdlen).
  assert (∀ y, Z.to_nat (Z.of_nat y * (dstStride * sizeof_uint16) / elemSize1 CV_16U)
               = y * Z.to_nat dstStride) as Hoff.
  { intros y. rewrite Z.mul_assoc, Z.div_mul by done. nia. }
  injection Hsr as Hrc Hrr.
  split; [by apply Mat_store_frame|]. split.
  - intros y x c Hy Hx Hc. unfold Mat_store.
    rewrite decide_True by (split; [unfold Mat_size; by rewrite Hrc, Hrr|by rewrite Htr]).
    destruct (lookup_lt_is_Some_2 (Mat_px r) y) as [row Hrow].
    { destruct Hwr as [-> _]. lia. }
    destruct (Mat_wf_lookup r y row Hwr Hrow) as [Hlrow Hprow].
    assert (Mat_channels r = Z.to_nat channels) as Hrch.
    { unfold Mat_channels. by rewrite Htr. }
    unfold sample_index.
    replace (Z.to_nat (Z.of_nat y * dstStride + Z.of_nat x * channels + Z.of_nat c))
      with ((0 + y) * Z.to_nat dstStride + (x * Z.to_nat channels + c)) by nia.
    rewrite (store_rows_content dst 0 _ (Z.to_nat dstStride) _ _ _ Hoff) with (r := row).
    + rewrite <- Hrch. rewrite (join_lookup_uniform _ _ _ _ Hprow) by lia.
      unfold Mat_at. by rewrite Hrow.
    + simpl. unfold Mat_channels. simpl. nia.
    + apply Forall_take. destruct Hwr as [_ Hall].
      eapply Forall_impl; [exact Hall|]. intros r0 [Hl0 Hp0]. simpl.
      rewrite (length_join_uniform _ _ Hp0), Hl0, Hrch, Hrc.
      unfold Mat_channels. simpl. done.
    + intros k Hk. rewrite length_take in Hk. simpl in Hk.
      unfold Mat_channels. simpl. destruct Hdlen as [->|Hdlen]; [lia|]. nia.
    + rewrite lookup_take, decide_True by (simpl; lia). done.
    + simpl. unfold Mat_channels. simpl. nia.
  - intros i Hi. apply Mat_store_frame; [done|]. intros y Hy Hspan. apply Hi.
    rewrite Hoff in Hspan. simpl in Hy, Hspan. unfold Mat_channels in Hspan. simpl in Hspan.
    exists (Z.of_nat y), (Z.of_nat i - Z.of_nat y * dstStride)%Z. nia.
Qed.

(** ** What a run may touch *)

Lemma ensures_bind {A C : Type} (B : Backend) (m : Prog A) (f : A → Prog C) Q :
  (∀ a, ensures B (f a) Q) → ensures B (m ≫= f) Q.
Proof.
  intros Hf c. rewrite run_bind. destruct (run B m) as [a|e]; [|done]. apply Hf.
Qed.

Lemma ensures_call {A : Type} (B : Backend) c (k : Mat → Prog A) Q :
  ensures B (k (B c)) Q → ensures B (Call c k) Q.
Proof. done. Qed.

Lemma ensures_lift {A : Type} (B : Backend) (r : result A) (Q : A → Prop) :
  (∀ a, r = Ok a → Q a) → ensures B (lift r) Q.
Proof. intros Hr a. rewrite run_lift. apply Hr. Qed.

Lemma lockstep_bind {A C : Type} (B : Backend) (m : Prog A) (f1 f2 : A → Prog C) R :
  (∀ a, lockstep B (f1 a) (f2 a) R) → lockstep B (m ≫= f1) (m ≫= f2) R.
Proof.
  intros Hf. unfold lockstep. rewrite !calls_bind, !run_bind.
  destruct (run B m) as [a|e]; simpl; [|done].
  destruct (Hf a) as [-> Hr]. done.
Qed.

Lemma lockstep_call {A : Type} (B : Backend) c (k1 k2 : Mat → Prog A) R :
  lockstep B (k1 (B c)) (k2 (B c)) R → lockstep B (Call c k1) (Call c k2) R.
Proof. intros [Hc Hr]. split; simpl; [by rewrite Hc|done]. Qed.

Lemma lockstep_lift {A : Type} (B : Backend) (r1 r2 : result A) (R : A → A → Prop) :
  match r1, r2 with
  | Ok a1, Ok a2 => R a1 a2
  | Err _, Err _ => True
  | _, _ => False
  end →
  lockstep B (lift r1) (lift r2) R.
Proof. intros H. split; [by rewrite !calls_lift|by rewrite !run_lift]. Qed.

(** The write-back into two buffers of the same length succeeds or fails
    on both, and makes them agree wherever it writes. *)
Lemma copy_rows_agree ys d1 d2 rowStride out nbytes :
  length d1 = length d2 →
  match copy_rows ys d1 rowStride out nbytes, copy_rows ys d2 rowStride out nbytes with
  | Ok r1, Ok r2 =>
      length r1 = length r2 ∧
      ∀ i : nat,
        (d1 !! i = d2 !! i ∨
         ∃ y nb, y ∈ ys ∧ nbytes = Ok nb ∧
           (Z.of_nat y * rowStride ≤ Z.of_nat i
            < Z.of_nat y * rowStride + nb / sizeof_uint16)%Z) →
        r1 !! i = r2 !! i
  | Err _, Err _ => True
  | _, _ => False
  end.
Proof.
  revert d1 d2. induction ys as [|y ys IH]; intros d1 d2 Hlen; simpl.
  - split; [done|]. intros i [?|(y & nb & Hy & _)]; [done|]. by apply elem_of_nil in Hy.
  - unfold int_mul. case_decide as Hov; simpl; [|done].
    destruct nbytes as [nb|e] eqn:Hnb; simpl; [|done].
    unfold memcpy. rewrite Hlen. case_decide as Hb; simpl; [|done].
    set (src := take (Z.to_nat (nb / sizeof_uint16)) (Mat_ptr out y)).
    set (off := Z.to_nat (Z.of_nat y * rowStride)).
    specialize (IH (list_inserts off src d1) (list_inserts off src d2)
                  ltac:(by rewrite !length_inserts)).
    destruct (copy_rows ys (list_inserts off src d1) rowStride out (Ok nb)) as [r1|];
      destruct (copy_rows ys (list_inserts off src d2) rowStride out (Ok nb)) as [r2|];
      try done.
    destruct IH as [Hl IH]. split; [done|]. intros i Hi. apply IH.
    assert (length src = Z.to_nat (nb / sizeof_uint16)) as Hsrc.
    { unfold src. rewrite length_take. lia. }
    destruct (decide (off ≤ i < off + length src)) as [Hin|Hout].
    { left. rewrite !list_lookup_inserts by lia. done. }
    destruct Hi as [Hi|(y' & nb' & Hy' & [= <-] & Hspan)].
    + left. destruct (decide (i < off)).
      * by rewrite !list_lookup_inserts_lt.
      * rewrite !list_lookup_inserts_ge by lia. done.
    + apply elem_of_cons in Hy' as [->|Hy'].
      * exfalso. apply Hout. unfold off. lia.
      * right. eauto.
Qed.

Lemma read_rows_ext d1 d2 ys step esz cols ch :
  length d1 = length d2 →
  (∀ y i, y ∈ ys →
     (Z.of_nat y * step / esz ≤ Z.of_nat i
      < Z.of_nat y * step / esz + Z.of_nat (cols * ch))%Z → d1 !! i = d2 !! i) →
  read_rows d1 ys step esz cols ch = read_rows d2 ys step esz cols ch.
Proof.
  intros Hlen. induction ys as [|y ys IH]; intros Hagree; simpl; [done|].
  rewrite (read_span_ext d1 d2 _ _ Hlen).
  2:{ intros i Hi. apply (Hagree y); [by left|done]. }
  rewrite IH; [done|]. intros y' i Hy'. apply Hagree. by right.
Qed.

(** A header is blind to everything outside its view. *)
Lemma Mat_of_data_ext d1 d2 rows cols channels stride d :
  length d1 = length d2 →
  (∀ i, in_view rows cols channels stride i → d1 !! i = d2 !! i) →
  Mat_of_data rows cols (CV_MAKETYPE d (Z.to_nat channels)) d1 (stride * elemSize1 d) =
  Mat_of_data rows cols (CV_MAKETYPE d (Z.to_nat channels)) d2 (stride * elemSize1 d).
Proof.
  intros Hlen Hagree. unfold Mat_of_data. simpl.
  rewrite (read_rows_ext d1 d2); [done|done|].
  intros y i Hy%elem_of_seq. rewrite Z.mul_assoc, Z.div_mul by (by destruct d).
  intros Hi. apply Hagree.
  exists (Z.of_nat y), (Z.of_nat i - Z.of_nat y * stride)%Z.
  destruct (decide (0 ≤ channels)%Z); [|nia]. destruct (decide (0 ≤ cols)%Z); nia.
Qed.

Lemma Mat_of_data_blind d1 d2 rows cols channels rowStride :
  agree_inside rows cols channels rowStride d1 d2 →
  Mat_of_data rows cols (CV_16UC channels) d1 (rowStride * sizeof_uint16) =
  Mat_of_data rows cols (CV_16UC channels) d2 (rowStride * sizeof_uint16).
Proof.
  intros [Hlen Hag]. exact (Mat_of_data_ext d1 d2 rows cols channels rowStride CV_16U Hlen Hag).
Qed.

Lemma mask_blind m1 m2 rows cols maskStride :
  agree_inside rows cols 1 maskStride m1 m2 →
  Mat_of_data rows cols CV_8U1 m1 maskStride = Mat_of_data rows cols CV_8U1 m2 maskStride.
Proof.
  intros [Hlen Hag].
  pose proof (Mat_of_data_ext m1 m2 rows cols 1 maskStride CV_8U Hlen Hag) as H.
  simpl in H. by rewrite Z.mul_1_r in H.
Qed.

Lemma copy_back_keeps data rows cols channels rowStride out (B : Backend) :
  ensures B (lift (copy_back data rows rowStride out
                     (cc ← int_mul cols channels; Ok (cc * sizeof_uint16)%Z)))
          (keeps_outside rows cols channels rowStride data).
Proof.
  apply ensures_lift. intros data' Hrun.
  eapply copy_back_frame; [|exact Hrun].
  intros nb. unfold int_mul. case_decide; simpl; [|done].
  intros [= <-]. by apply Z.div_mul.
Qed.

Lemma copy_back_lockstep (B : Backend) d1 d2 rows cols channels rowStride out nbytes :
  agree_inside rows cols channels rowStride d1 d2 →
  lockstep B (lift (copy_back d1 rows rowStride out nbytes))
             (lift (copy_back d2 rows rowStride out nbytes))
             (agree_inside rows cols channels rowStride).
Proof.
  intros [Hlen Hagree]. apply lockstep_lift. unfold copy_back.
  pose proof (copy_rows_agree (seq 0 (Z.to_nat rows)) d1 d2 rowStride out nbytes Hlen) as H.
  destruct (copy_rows _ d1 _ _ _) as [r1|]; destruct (copy_rows _ d2 _ _ _) as [r2|];
    try done.
  destruct H as [Hl Hr]. split; [done|]. intros i Hi. apply Hr. left. by apply Hagree.
Qed.

Ltac lockstep_go :=
  repeat first
    [ apply lockstep_call
    | apply copy_back_lockstep; assumption
    | apply lockstep_bind; intros ? ].

Ltac ensures_go :=
  repeat first
    [ apply ensures_call
    | apply copy_back_keeps
    | apply ensures_bind; intros ? ].

Lemma denoise_nlm_keeps (B : Backend) data rows cols channels rowStride h :
  ensures B (denoise_nlm_opencv data rows cols channels rowStride h)
          (keeps_outside rows cols channels rowStride data).
Proof.
  unfold denoise_nlm_opencv. apply ensures_bind. intros img.
  case_decide; unfold cv.fastNlMeansDenoising, cv.medianBlur, cv.resize,
    cv.mixChannels, cv.subtract; prog_step; ensures_go.
Qed.

Lemma denoise_nlm_blind (B : Backend) d1 d2 rows cols channels rowStride h :
  agree_inside rows cols channels rowStride d1 d2 →
  lockstep B (denoise_nlm_opencv d1 rows cols channels rowStride h)
             (denoise_nlm_opencv d2 rows cols channels rowStride h)
             (agree_inside rows cols channels rowStride).
Proof.
  intros Hag. unfold denoise_nlm_opencv.
  rewrite (Mat_of_data_blind d1 d2 rows cols channels rowStride Hag).
  apply lockstep_bind. intros img.
  case_decide; unfold cv.fastNlMeansDenoising, cv.medianBlur, cv.resize,
    cv.mixChannels, cv.subtract; prog_step; lockstep_go.
Qed.

Lemma quattro_keeps (B : Backend) data rows cols channels rowStride h :
  ensures B (denoise_quattro_highres_opencv data rows cols channels rowStride h)
          (keeps_outside rows cols channels rowStride data).
Proof.
  unfold denoise_quattro_highres_opencv. apply ensures_bind. intros img.
  case_decide; unfold cv.fastNlMeansDenoising; prog_step; ensures_go.
Qed.

Lemma quattro_blind (B : Backend) d1 d2 rows cols channels rowStride h :
  agree_inside rows cols channels rowStride d1 d2 →
  lockstep B (denoise_quattro_highres_opencv d1 rows cols channels rowStride h)
             (denoise_quattro_highres_opencv d2 rows cols channels rowStride h)
             (agree_inside rows cols channels rowStride).
Proof.
  intros Hag. unfold denoise_quattro_highres_opencv.
  rewrite (Mat_of_data_blind d1 d2 rows cols channels rowStride Hag).
  apply lockstep_bind. intros img.
  case_decide; unfold cv.fastNlMeansDenoising; prog_step; lockstep_go.
Qed.

Lemma inpaint_keeps (B : Backend) data rows cols channels rowStride
    mask maskStride inpaintRadius method :
  ensures B (inpaint_bad_pixels_opencv data rows cols channels rowStride
               mask maskStride inpaintRadius method)
          (keeps_outside rows cols channels rowStride data).
Proof.
  unfold inpaint_bad_pixels_opencv. apply ensures_bind. intros img.
  apply ensures_bind. intros maskMat.
  case_decide as Hch; unfold cv.inpaint, cv.merge; prog_step.
  - apply ensures_call. apply ensures_lift. intros data' Hrun.
    eapply copy_back_frame; [|exact Hrun].
    intros nb [= <-]. rewrite Hch, Z.mul_1_r. by apply Z.div_mul.
  - ensures_go.
Qed.

Lemma inpaint_blind (B : Backend) d1 d2 rows cols channels rowStride
    m1 m2 maskStride inpaintRadius method :
  agree_inside rows cols channels rowStride d1 d2 →
  agree_inside rows cols 1 maskStride m1 m2 →
  lockstep B (inpaint_bad_pixels_opencv d1 rows cols channels rowStride
                m1 maskStride inpaintRadius method)
             (inpaint_bad_pixels_opencv d2 rows cols channels rowStride
                m2 maskStride inpaintRadius method)
             (agree_inside rows cols channels rowStride).
Proof.
  intros Hag Hmask. unfold inpaint_bad_pixels_opencv.
  rewrite (Mat_of_data_blind d1 d2 rows cols channels rowStride Hag).
  rewrite (mask_blind m1 m2 rows cols maskStride Hmask).
  apply lockstep_bind. intros img. apply lockstep_bind. intros maskMat.
  case_decide as Hch; unfold cv.inpaint, cv.merge; prog_step; lockstep_go.
Qed.

Lemma read_rows_wf data ys step esz cols ch rs :
  read_rows data ys step esz cols ch = Ok rs →
  length rs = length ys ∧
  Forall (λ r : list (list Z), length r = cols ∧ Forall (λ p : list Z, length p = ch) r) rs.
Proof.
  revert rs. induction ys as [|y ys IH]; intros rs; simpl.
  - intros [= <-]. by split.
  - unfold read_span. case_decide as Hb; [simpl|done].
    destruct (read_rows data ys step esz cols ch) as [rs'|]; [simpl|done].
    intros [= <-]. destruct (IH rs' eq_refl) as [Hl Hall].
    split; [simpl; by rewrite Hl|]. constructor; [|done].
    split; [apply length_chunks|]. apply chunks_wf.
    rewrite length_take, length_drop. lia.
Qed.

Lemma read_rows_bounds data ys step esz cols ch rs :
  read_rows data ys step esz cols ch = Ok rs →
  ∀ y, y ∈ ys → (0 ≤ Z.of_nat y * step / esz)%Z.
Proof.
  revert rs. induction ys as [|y ys IH]; intros rs; simpl.
  - intros _ y Hy. by apply elem_of_nil in Hy.
  - unfold read_span. case_decide as Hb; [simpl|done].
    destruct (read_rows data ys step esz cols ch) as [rs'|]; [simpl|done].
    intros _ y' [->|Hy']%elem_of_cons; [lia|]. by apply (IH rs').
Qed.

Lemma Mat_of_data_wf rows cols ty data step m :
  Mat_of_data rows cols ty data step = Ok m →
  Mat_wf m ∧ Mat_rows m = Z.to_nat rows ∧ Mat_cols m = Z.to_nat cols ∧ Mat_type m = ty.
Proof.
  unfold Mat_of_data.
  destruct (read_rows data _ _ _ _ _) as [rs|] eqn:Hrs; [simpl|done].
  intros [= <-]. apply read_rows_wf in Hrs as [Hl Hall].
  split; [|done]. split; [simpl; by rewrite Hl, length_seq|done].
Qed.

Lemma bicubic_keeps (B : Backend) src srcRows srcCols channels srcStride
    dst dstRows dstCols dstStride :
  ensures B (bicubic_upscale_opencv src srcRows srcCols channels srcStride
               dst dstRows dstCols dstStride)
          (keeps_outside dstRows dstCols channels dstStride dst).
Proof.
  unfold bicubic_upscale_opencv. apply ensures_bind. intros srcMat.
  unfold ensures. rewrite run_bind.
  destruct (run B (lift (Mat_of_data dstRows dstCols (CV_16UC channels) dst _)))
    as [dstMat|e] eqn:Hd; [|done]. rewrite run_lift in Hd. simpl.
  intros dst' [= <-].
  assert (∀ y, y < Z.to_nat dstRows → (0 ≤ Z.of_nat y * dstStride)%Z) as Hoff.
  { unfold Mat_of_data in Hd.
    destruct (read_rows dst _ _ _ _ _) as [rs|] eqn:Hrs; [|done].
    intros y Hy. eapply read_rows_bounds in Hrs; [|apply elem_of_seq; split; [lia|exact Hy]].
    simpl in Hrs. by rewrite Z.mul_assoc, Z.div_mul in Hrs. }
  apply Mat_of_data_wf in Hd as (Hwf & Hr & Hc & Ht).
  destruct (Mat_store_frame dst dstMat (dstStride * sizeof_uint16)
              (B (Resize srcMat (Mat_size dstMat) f64.zero f64.zero INTER_CUBIC)) Hwf)
    as [Hlen Hfr].
  split; [done|]. intros i Hi. apply Hfr. intros y Hy Hspan. apply Hi.
  unfold Mat_depth, Mat_channels in Hspan. rewrite Ht, Hc in Hspan. simpl in Hspan.
  rewrite Z.mul_assoc, Z.div_mul in Hspan by done.
  rewrite Hr in Hy. specialize (Hoff y Hy).
  exists (Z.of_nat y), (Z.of_nat i - Z.of_nat y * dstStride)%Z.
  destruct (decide (0 ≤ channels)%Z); [|nia]. destruct (decide (0 ≤ dstCols)%Z); nia.
Qed.

Lemma bicubic_blind s1 s2 srcRows srcCols channels srcStride
    dst dstRows dstCols dstStride :
  agree_inside srcRows srcCols channels srcStride s1 s2 →
  bicubic_upscale_opencv s1 srcRows srcCols channels srcStride dst dstRows dstCols dstStride =
  bicubic_upscale_opencv s2 srcRows srcCols channels srcStride dst dstRows dstCols dstStride.
Proof.
  intros Hag. unfold bicubic_upscale_opencv.
  by rewrite (Mat_of_data_blind s1 s2 srcRows srcCols channels srcStride Hag).
Qed.

(** ** Reading an image or a mask through its header *)

Lemma image_of_at data rows cols channels rowStride (y x c : nat) :
  (0 ≤ channels)%Z → (0 ≤ rowStride)%Z →
  (Z.of_nat y < rows)%Z → (Z.of_nat x < cols)%Z → (Z.of_nat c < channels)%Z →
  Mat_at (image_of data rows cols channels rowStride) y x c =
  data !! sample_index rowStride channels y x c.
Proof.
  intros Hch Hrs Hy Hx Hc. unfold image_of.
  rewrite view_px_at by lia. unfold sample_index. f_equal. nia.
Qed.

Lemma mask_of_at mask rows cols maskStride (y x : nat) :
  (0 ≤ maskStride)%Z → (Z.of_nat y < rows)%Z → (Z.of_nat x < cols)%Z →
  Mat_at (mask_of mask rows cols maskStride) y x 0 =
  mask !! sample_index maskStride 1 y x 0.
Proof.
  intros Hrs Hy Hx. unfold mask_of.
  rewrite view_px_at by lia. unfold sample_index. f_equal. nia.
Qed.

Lemma keeps_outside_padding rows cols channels rowStride data data' :
  (0 ≤ cols * channels ≤ rowStride)%Z →
  keeps_outside rows cols channels rowStride data data' →
  padding_kept rows cols channels rowStride data data'.
Proof.
  intros Hs [_ Hfr] y j Hy Hj. apply Hfr.
  apply padding_not_in_view; [done|lia|done].
Qed.

(** ** The flag of every inpaint call *)



(** ** Zero strength *)




(** ** The executable backend meets the contract *)

Lemma ref_backend_nearest_wf (src : Mat) (dsize : Size) :
  Mat_wf (ref_backend.resize src dsize).
Proof.
  unfold ref_backend.resize.
  set (sz := if decide (0 < width dsize ∧ 0 < height dsize) then dsize else _).
  apply Mat_wf_intro.
  - unfold ref_backend.nearest. by rewrite length_fmap, length_seq.
  - intros y r Hr. unfold ref_backend.nearest in Hr.
    rewrite list_lookup_fmap in Hr.
    destruct (seq 0 (height sz) !! y) as [y'|]; [|done]. injection Hr as <-.
    split; [by rewrite length_fmap, length_seq|].
    intros x p Hp. rewrite list_lookup_fmap in Hp.
    destruct (seq 0 (width sz) !! x) as [x'|]; [|done]. injection Hp as <-.
    fold (Mat_channels src).
    destruct (Mat_px src !! _) as [row|]; [|by rewrite length_replicate].
    destruct (row !! _) as [q|]; [|by rewrite length_replicate].
    rewrite length_take, length_app, length_replicate. lia.
Qed.

Lemma ref_backend_inpaint_wf (src mask : Mat) (flags : InpaintFlags) :
  Mat_wf src → Mat_wf (ref_backend.inpaint src mask flags).
Proof.
  intros Hwf. apply Mat_wf_intro.
  - rewrite length_imap. by destruct Hwf.
  - intros y r Hr. rewrite list_lookup_imap in Hr.
    destruct (Mat_px src !! y) as [row|] eqn:Hrow; [|done]. injection Hr as <-.
    destruct (Mat_wf_lookup _ _ _ Hwf Hrow) as [Hl Hp].
    split; [by rewrite length_imap|].
    intros x p Hx. rewrite list_lookup_imap in Hx.
    destruct (row !! x) as [q|] eqn:Hq; [|done]. injection Hx as <-.
    eapply Forall_lookup_1 in Hp; [|done]. fold (Mat_channels src).
    destruct (Mat_at mask y x 0) as [[| |]|]; by rewrite ?length_replicate.
Qed.

Lemma ref_backend_contract : kernel_contract ref_backend.B.
Proof.
  split; simpl.
  - intros src _ _ _ _ Hwf. by split.
  - intros src _ Hwf. by split.
  - intros src dsize _ _ _. split; [apply ref_backend_nearest_wf|]. split; [done|].
    intros Hw Hh. unfold ref_backend.resize. rewrite decide_True by done.
    by destruct dsize.
  - intros src mask _ flags Hwf _ _. split; [by apply ref_backend_inpaint_wf|done].
Qed.

Lemma ref_backend_keeps_unmasked : inpaint_keeps_unmasked ref_backend.B.
Proof.
  intros src mask radius flags y x c Hmask. simpl.
  unfold Mat_at at 1. simpl. rewrite list_lookup_imap. unfold Mat_at at 2.
  destruct (Mat_px src !! y) as [row|]; [simpl|done].
  rewrite list_lookup_imap. destruct (row !! x) as [p|]; [simpl|done].
  by rewrite Hmask.
Qed.

(** ** What a successful subtraction holds *)

Lemma subtract_at (a b r : Mat) (d : Depth) :
  subtract a b d = Ok r →
  Mat_depth r = d ∧
  ∀ y x c, Mat_at r y x c =
    match Mat_at a y x c, Mat_at b y x c with
    | Some u, Some v => Some (saturate_cast d (u - v))
    | _, _ => None
    end.
Proof.
  intros Hr. assert (Mat_size a = Mat_size b ∧ Mat_channels a = Mat_channels b) as [Hs Hc].
  { unfold subtract in Hr. by case_decide. }
  destruct (subtract_ok a b d Hs Hc) as (r' & Hr' & _ & _ & Ht & _ & Hat).
  assert (r' = r) as -> by congruence.
  split; [|done]. unfold Mat_depth. by rewrite Ht.
Qed.

(** * Properties of the entry points *)

(** C1. The low-frequency step of the three-channel band-split denoise.
    After the two kernel calls of steps 1 and 2 ([pre]) the run issues
    exactly three more, in this order: [resize] of the step-2 result [out2]
    (which has the full size) by the factors 1/4 and 1/4 with [INTER_AREA];
    the patch-denoise kernel on the downsampled image with strengths
    [{0, h/8, h/4}], template window 3, search window 21 and the L1 norm;
    [resize] of the residual to the size of [out2] with [INTER_CUBIC].
    The residual is the downsampled image minus its denoise, sample by
    sample, saturated to signed 16 bits; the final output is [out2] minus
    the upsampled residual, saturated to [0, 65535]; and that output is
    what the caller's buffer holds on return. *)
Theorem low_frequency_correction_steps (B : Backend) data rows cols rowStride h :
  kernel_contract B →
  valid_view data rows cols 3 rowStride → (0 < rows)%Z → (0 < cols)%Z →
  ∃ (pre : list KernelCall) (out2 sub_res out3 : Mat) (data' : list Z),
    let quarter := f64.div f64.one (f64.of_int 4) in
    let down := Resize out2 Size_default quarter quarter INTER_AREA in
    let sub := B down in
    let low := FastNlMeansDenoising sub
                 [f32.zero; f32.div h (f32.of_int 8); f32.div h (f32.of_int 4)]
                 3 21 NORM_L1 in
    let sub_dn := B low in
    let up := Resize sub_res (Mat_size out2) f64.zero f64.zero INTER_CUBIC in
    let res := B up in
    calls B (denoise_nlm_opencv data rows cols 3 rowStride h) = pre ++ [down; low; up] ∧
    length pre = 2 ∧
    Mat_size out2 = mkSize (Z.to_nat cols) (Z.to_nat rows) ∧
    subtract sub sub_dn CV_16S = Ok sub_res ∧
    Mat_depth sub_res = CV_16S ∧
    (∀ y x c, Mat_at sub_res y x c =
       match Mat_at sub y x c, Mat_at sub_dn y x c with
       | Some u, Some v => Some (Z.max (-32768) (Z.min 32767 (u - v)))
       | _, _ => None
       end) ∧
    subtract out2 res CV_16U = Ok out3 ∧
    Mat_depth out3 = CV_16U ∧
    (∀ y x c, Mat_at out3 y x c =
       match Mat_at out2 y x c, Mat_at res y x c with
       | Some u, Some v => Some (Z.max 0 (Z.min 65535 (u - v)))
       | _, _ => None
       end) ∧
    run B (denoise_nlm_opencv data rows cols 3 rowStride h) = Ok data' ∧
    written_back data data' rows cols 3 rowStride out3.
Proof.
  intros HB Hv Hrows Hcols.
  destruct (denoise_nlm_3ch B data rows cols rowStride h HB Hv Hrows Hcols)
    as (out2 & out3 & data' & Hbs & Hrun & Hwb).
  destruct Hbs as (sub_res & Hcs & _ & _ & Hsr & Hs3 & _ & _ & _ & _ & Hh2 & _ & _).
  destruct (subtract_at _ _ _ _ Hsr) as [Hd1 Hat1].
  destruct (subtract_at _ _ _ _ Hs3) as [Hd3 Hat3].
  eexists [_; _], out2, sub_res, out3, data'. simpl.
  split; [exact Hcs|]. split; [done|].
  split; [exact (same_header_size _ _ Hh2)|]. done.
Qed.

Lemma low_frequency_correction_steps_witness :
  kernel_contract ref_backend.B ∧ valid_view sample.image 4 4 3 14 ∧
  ∃ data', run ref_backend.B (denoise_nlm_opencv sample.image 4 4 3 14 sample.h) = Ok data' ∧
           length (calls ref_backend.B (denoise_nlm_opencv sample.image 4 4 3 14 sample.h)) = 5.
Proof.
  assert (valid_view sample.image 4 4 3 14) as Hv.
  { unfold valid_view, view_in_bounds, INT_MAX. simpl. lia. }
  split; [exact ref_backend_contract|]. split; [exact Hv|].
  destruct (low_frequency_correction_steps ref_backend.B sample.image 4 4 14 sample.h
              ref_backend_contract Hv eq_refl eq_refl)
    as (pre & out2 & sub_res & out3 & data' & Hcalls & Hpre & _ & _ & _ & _ & _ & _ & _ & Hrun & _).
  exists data'. split; [exact Hrun|]. rewrite Hcalls, length_app, Hpre. reflexivity.
Defined.

(** C2. On a three-channel image the band-split denoise first calls the
    patch-denoise kernel on the whole image as the caller's view presents
    it (sample [(y, x, c)] at [y * rowStride + x * 3 + c]), with strengths
    [{0, h, h}], template window 3, search window 11 and the L1 norm.  It
    is one call: what follows, if anything, is the median filter of
    step 2. *)
Theorem primary_denoise_call (B : Backend) data rows cols rowStride h :
  view_in_bounds data rows cols 3 rowStride →
  let img := image_of data rows cols 3 rowStride in
  (∃ rest,
     calls B (denoise_nlm_opencv data rows cols 3 rowStride h) =
       FastNlMeansDenoising img [f32.zero; h; h] 3 11 NORM_L1 :: rest ∧
     (rest = [] ∨ ∃ V rest', rest = MedianBlur V 3 :: rest')) ∧
  Mat_rows img = Z.to_nat rows ∧ Mat_cols img = Z.to_nat cols ∧ Mat_channels img = 3 ∧
  ∀ y x c : nat, (Z.of_nat y < rows)%Z → (Z.of_nat x < cols)%Z → c < 3 →
    Mat_at img y x c = data !! sample_index rowStride 3 y x c.
Proof.
  intros Hv img. split; [by apply denoise_nlm_3ch_head|].
  split; [done|]. split; [done|]. split; [done|].
  intros y x c Hy Hx Hc. destruct Hv as (? & ? & ? & ? & ?).
  apply image_of_at; lia.
Qed.

Lemma primary_denoise_call_witness :
  view_in_bounds sample.image 4 4 3 14 ∧
  hd_error (calls ref_backend.B (denoise_nlm_opencv sample.image 4 4 3 14 sample.h)) =
    Some (FastNlMeansDenoising (image_of sample.image 4 4 3 14)
            [f32.zero; sample.h; sample.h] 3 11 NORM_L1).
Proof.
  assert (view_in_bounds sample.image 4 4 3 14) as Hv.
  { unfold view_in_bounds. simpl. lia. }
  split; [exact Hv|].
  destruct (primary_denoise_call ref_backend.B sample.image 4 4 14 sample.h Hv)
    as [(rest & -> & _) _].
  reflexivity.
Defined.

(** C3. The simplified high-resolution pipeline issues exactly one kernel
    call: the patch-denoise kernel on the whole image with template
    window 3, search window 11 and the L1 norm; the strengths are
    [{0, h, h * 2}] for three channels and [{h}] otherwise (one channel in
    particular).  No median filter and no resize is called. *)
Theorem highres_single_call (B : Backend) data rows cols channels rowStride h :
  view_in_bounds data rows cols channels rowStride →
  let img := image_of data rows cols channels rowStride in
  (channels = 3%Z →
     calls B (denoise_quattro_highres_opencv data rows cols channels rowStride h) =
     [FastNlMeansDenoising img [f32.zero; h; f32.mul h (f32.of_int 2)] 3 11 NORM_L1]) ∧
  (channels ≠ 3%Z →
     calls B (denoise_quattro_highres_opencv data rows cols channels rowStride h) =
     [FastNlMeansDenoising img [h] 3 11 NORM_L1]).
Proof.
  intros Hv img.
  pose proof (quattro_calls B data rows cols channels rowStride h Hv) as Hc.
  split; intros Hch; rewrite Hc; [by rewrite decide_True|by rewrite decide_False].
Qed.

Lemma highres_single_call_witness :
  view_in_bounds sample.image 4 4 3 14 ∧ view_in_bounds sample.image 4 12 1 14 ∧
  calls ref_backend.B (denoise_quattro_highres_opencv sample.image 4 4 3 14 sample.h) =
    [FastNlMeansDenoising (image_of sample.image 4 4 3 14)
       [f32.zero; sample.h; f32.of_int 20] 3 11 NORM_L1] ∧
  calls ref_backend.B (denoise_quattro_highres_opencv sample.image 4 12 1 14 sample.h) =
    [FastNlMeansDenoising (image_of sample.image 4 12 1 14) [sample.h] 3 11 NORM_L1].
Proof.
  assert (view_in_bounds sample.image 4 4 3 14) as Hv3.
  { unfold view_in_bounds. simpl. lia. }
  assert (view_in_bounds sample.image 4 12 1 14) as Hv1.
  { unfold view_in_bounds. simpl. lia. }
  split; [exact Hv3|]. split; [exact Hv1|]. split.
  - exact (proj1 (highres_single_call ref_backend.B sample.image 4 4 3 14 sample.h Hv3)
             eq_refl).
  - apply (proj2 (highres_single_call ref_backend.B sample.image 4 12 1 14 sample.h Hv1)).
    discriminate.
Defined.

(** C4. Defect repair of an image with more than one channel.  The kernel
    calls are exactly one [inpaint] per channel, in channel order, each on
    the single-channel matrix of that channel (its sample at [(y, x)] is
    the image's sample [(y, x, c)]) and each with the same mask matrix,
    radius and flag.  The answers are merged into one matrix of [channels]
    channels whose channel [c] is the answer for channel [c], and that
    matrix is what the caller's buffer holds on return. *)
Theorem repair_per_channel (B : Backend) data rows cols channels rowStride
    mask maskStride inpaintRadius method :
  kernel_contract B →
  valid_view data rows cols channels rowStride →
  view_in_bounds mask rows cols 1 maskStride →
  (1 < channels)%Z →
  let img := image_of data rows cols channels rowStride in
  let maskMat := mask_of mask rows cols maskStride in
  let call c := Inpaint (extract_channel img c) maskMat (f64.of_int inpaintRadius)
                        (if decide (method = 0%Z) then INPAINT_NS else INPAINT_TELEA) in
  calls B (inpaint_bad_pixels_opencv data rows cols channels rowStride
             mask maskStride inpaintRadius method) = call <$> seq 0 (Z.to_nat channels) ∧
  (∀ c y x, Mat_channels (extract_channel img c) = 1 ∧
            Mat_at (extract_channel img c) y x 0 = Mat_at img y x c) ∧
  ∃ (result : Mat) (data' : list Z),
    merge ((λ c, B (call c)) <$> seq 0 (Z.to_nat channels)) = Ok result ∧
    (∀ y x c, c < Z.to_nat channels → Mat_at result y x c = Mat_at (B (call c)) y x 0) ∧
    run B (inpaint_bad_pixels_opencv data rows cols channels rowStride
             mask maskStride inpaintRadius method) = Ok data' ∧
    written_back data data' rows cols channels rowStride result.
Proof.
  intros HB Hv Hm Hch. cbv zeta. fold (inpaint_method method). split; [|split].
  - rewrite (inpaint_calls B _ _ _ _ _ _ _ _ _ (proj1 Hv) Hm).
    apply list_fmap_ext. intros _ c _. unfold plane. rewrite decide_False by lia. done.
  - intros c y x. split; [done|apply extract_channel_at].
  - destruct (inpaint_run_multi B data rows cols channels rowStride mask maskStride
                inpaintRadius method HB Hv Hm Hch)
      as (result & data' & Hmerge & Hrun & Hwb & Hat).
    by exists result, data'.
Qed.

Lemma repair_per_channel_witness :
  kernel_contract ref_backend.B ∧ valid_view sample.image 4 4 3 14 ∧
  view_in_bounds sample.mask 4 4 1 5 ∧
  length (calls ref_backend.B
            (inpaint_bad_pixels_opencv sample.image 4 4 3 14 sample.mask 5 3 0)) = 3.
Proof.
  assert (valid_view sample.image 4 4 3 14) as Hv.
  { unfold valid_view, view_in_bounds, INT_MAX. simpl. lia. }
  assert (view_in_bounds sample.mask 4 4 1 5) as Hm.
  { unfold view_in_bounds. simpl. lia. }
  split; [exact ref_backend_contract|]. split; [exact Hv|]. split; [exact Hm|].
  destruct (repair_per_channel ref_backend.B sample.image 4 4 3 14 sample.mask 5 3 0
              ref_backend_contract Hv Hm eq_refl) as [-> _].
  reflexivity.
Defined.

(** C5. Defect repair, one channel or several.  With an inpainting kernel
    that returns its input outside the mask, the run returns, and for every
    sample [(y, x, c)] of the image: the kernel was called on the plane of
    channel [c], whose sample at [(y, x)] is the one in the buffer; the
    buffer afterwards holds the kernel's answer at [(y, x)] (so every
    flagged pixel gets the value the kernel produced for it); and where
    the mask is 0 the sample is the same as before. *)
Theorem repair_changes_only_masked (B : Backend) data rows cols channels rowStride
    mask maskStride inpaintRadius method :
  kernel_contract B → inpaint_keeps_unmasked B →
  valid_view data rows cols channels rowStride →
  view_in_bounds mask rows cols 1 maskStride →
  (1 ≤ channels)%Z →
  let img := image_of data rows cols channels rowStride in
  let maskMat := mask_of mask rows cols maskStride in
  let call c := Inpaint (plane img channels c) maskMat (f64.of_int inpaintRadius)
                        (if decide (method = 0%Z) then INPAINT_NS else INPAINT_TELEA) in
  ∃ data',
    run B (inpaint_bad_pixels_opencv data rows cols channels rowStride
             mask maskStride inpaintRadius method) = Ok data' ∧
    length data' = length data ∧
    ∀ y x c : nat, (Z.of_nat y < rows)%Z → (Z.of_nat x < cols)%Z → (Z.of_nat c < channels)%Z →
      let i := sample_index rowStride channels y x c in
      call c ∈ calls B (inpaint_bad_pixels_opencv data rows cols channels rowStride
                          mask maskStride inpaintRadius method) ∧
      Mat_at (plane img channels c) y x 0 = data !! i ∧
      data' !! i = Mat_at (B (call c)) y x 0 ∧
      (mask !! sample_index maskStride 1 y x 0 = Some 0%Z → data' !! i = data !! i).
Proof.
  intros HB Hkeep Hv Hm Hch. cbv zeta. fold (inpaint_method method).
  set (img := image_of data rows cols channels rowStride).
  set (maskMat := mask_of mask rows cols maskStride).
  set (prog := inpaint_bad_pixels_opencv _ _ _ _ _ _ _ _ _).
  assert (0 ≤ rowStride ∧ 0 ≤ maskStride ∧ 0 ≤ channels)%Z as (Hrs & Hms & Hc0).
  { destruct Hv as [(?&?&?&?&?) _], Hm as (?&?&?&?&?). lia. }
  assert (∃ data', run B prog = Ok data' ∧ length data' = length data ∧
            ∀ y x c : nat, (Z.of_nat y < rows)%Z → (Z.of_nat x < cols)%Z →
              (Z.of_nat c < channels)%Z →
              data' !! sample_index rowStride channels y x c =
              Mat_at (B (Inpaint (plane img channels c) maskMat (f64.of_int inpaintRadius)
                                 (inpaint_method method))) y x 0)
    as (data' & Hrun & Hlen & Hget).
  { destruct (decide (channels = 1%Z)) as [->|Hne].
    - destruct (inpaint_run_1 B data rows cols rowStride mask maskStride inpaintRadius
                  method HB Hv Hm) as (data' & Hrun & Hlen & Hat & _).
      exists data'. split; [done|]. split; [done|].
      intros y x c Hy Hx Hc. assert (c = 0) as -> by lia. by apply Hat.
    - destruct (inpaint_run_multi B data rows cols channels rowStride mask maskStride
                  inpaintRadius method HB Hv Hm ltac:(lia))
        as (result & data' & _ & Hrun & (Hlen & Hat & _) & Hres).
      exists data'. split; [done|]. split; [done|].
      intros y x c Hy Hx Hc. rewrite Hat by done. rewrite Hres by lia.
      unfold plane. by rewrite decide_False. }
  assert (∀ y x c : nat, (Z.of_nat y < rows)%Z → (Z.of_nat x < cols)%Z →
            (Z.of_nat c < channels)%Z →
            Mat_at (plane img channels c) y x 0 =
            data !! sample_index rowStride channels y x c) as Hplane.
  { intros y x c Hy Hx Hc. unfold plane. case_decide as H1.
    - assert (c = 0) as -> by lia. by apply image_of_at.
    - rewrite extract_channel_at. by apply image_of_at. }
  exists data'. split; [done|]. split; [done|].
  intros y x c Hy Hx Hc. simpl. split_and!.
  - unfold prog. rewrite (inpaint_calls B _ _ _ _ _ _ _ _ _ (proj1 Hv) Hm).
    apply (list_elem_of_fmap_2 (λ c, Inpaint (plane img channels c) maskMat
                                   (f64.of_int inpaintRadius) (inpaint_method method))).
    apply elem_of_seq. lia.
  - by apply Hplane.
  - by apply Hget.
  - intros Hmask. rewrite Hget by done. rewrite Hkeep.
    + by apply Hplane.
    + unfold maskMat. by rewrite mask_of_at.
Qed.

Lemma repair_changes_only_masked_witness :
  kernel_contract ref_backend.B ∧ inpaint_keeps_unmasked ref_backend.B ∧
  valid_view sample.image 4 4 3 14 ∧ view_in_bounds sample.mask 4 4 1 5 ∧
  ∃ data',
    run ref_backend.B
        (inpaint_bad_pixels_opencv sample.image 4 4 3 14 sample.mask 5 3 0) = Ok data' ∧
    data' !! sample_index 14 3 0 1 2 = sample.image !! sample_index 14 3 0 1 2.
Proof.
  assert (valid_view sample.image 4 4 3 14) as Hv.
  { unfold valid_view, view_in_bounds, INT_MAX. simpl. lia. }
  assert (view_in_bounds sample.mask 4 4 1 5) as Hm.
  { unfold view_in_bounds. simpl. lia. }
  split; [exact ref_backend_contract|]. split; [exact ref_backend_keeps_unmasked|].
  split; [exact Hv|]. split; [exact Hm|].
  destruct (repair_changes_only_masked ref_backend.B sample.image 4 4 3 14 sample.mask 5 3 0
              ref_backend_contract ref_backend_keeps_unmasked Hv Hm ltac:(lia))
    as (data' & Hrun & _ & Hpix).
  exists data'. split; [exact Hrun|].
  exact (proj2 (proj2 (proj2 (Hpix 0 1 2 eq_refl eq_refl eq_refl))) eq_refl).
Defined.

(** C6. No entry point reads or writes a sample outside the logical region
    of a view.  For a view with [0 <= cols * channels <= rowStride]:
    - a run of either denoise or of the defect repair that returns leaves
      the buffer's length and every sample outside the region as they
      were, the padding [cols * channels <= j < rowStride] of every row in
      particular; the same holds for the destination of the upscaler;
    - two buffers that hold the same image and differ only outside the
      region (and for the defect repair two such masks) lead to the same
      kernel calls, to failure or success alike, and to results that agree
      on the region; the upscaler's program does not depend on what lies
      outside the region of its source at all. *)
Theorem views_are_respected (B : Backend) rows cols channels rowStride :
  (0 ≤ cols * channels ≤ rowStride)%Z →
  let kept data data' :=
    keeps_outside rows cols channels rowStride data data' ∧
    padding_kept rows cols channels rowStride data data' in
  let same := agree_inside rows cols channels rowStride in
  (∀ data h,
     ensures B (denoise_nlm_opencv data rows cols channels rowStride h) (kept data)) ∧
  (∀ d1 d2 h, same d1 d2 →
     lockstep B (denoise_nlm_opencv d1 rows cols channels rowStride h)
                (denoise_nlm_opencv d2 rows cols channels rowStride h) same) ∧
  (∀ data h,
     ensures B (denoise_quattro_highres_opencv data rows cols channels rowStride h)
             (kept data)) ∧
  (∀ d1 d2 h, same d1 d2 →
     lockstep B (denoise_quattro_highres_opencv d1 rows cols channels rowStride h)
                (denoise_quattro_highres_opencv d2 rows cols channels rowStride h) same) ∧
  (∀ data mask maskStride inpaintRadius method,
     ensures B (inpaint_bad_pixels_opencv data rows cols channels rowStride
                  mask maskStride inpaintRadius method) (kept data)) ∧
  (∀ d1 d2 m1 m2 maskStride inpaintRadius method,
     same d1 d2 → agree_inside rows cols 1 maskStride m1 m2 →
     lockstep B (inpaint_bad_pixels_opencv d1 rows cols channels rowStride
                   m1 maskStride inpaintRadius method)
                (inpaint_bad_pixels_opencv d2 rows cols channels rowStride
                   m2 maskStride inpaintRadius method) same) ∧
  (∀ src srcRows srcCols srcStride dst,
     ensures B (bicubic_upscale_opencv src srcRows srcCols channels srcStride
                  dst rows cols rowStride) (kept dst)) ∧
  (∀ s1 s2 dst dstRows dstCols dstStride,
     same s1 s2 →
     bicubic_upscale_opencv s1 rows cols channels rowStride dst dstRows dstCols dstStride =
     bicubic_upscale_opencv s2 rows cols channels rowStride dst dstRows dstCols dstStride).
Proof.
  intros Hs. cbv zeta.
  assert (∀ (prog : Prog (list Z)) data,
            ensures B prog (keeps_outside rows cols channels rowStride data) →
            ensures B prog (λ data', keeps_outside rows cols channels rowStride data data' ∧
                                     padding_kept rows cols channels rowStride data data'))
    as Hpad.
  { intros prog data Hk data' Hrun. split; [by apply Hk|].
    apply keeps_outside_padding; [done|by apply Hk]. }
  split_and!.
  - intros data h. apply Hpad, denoise_nlm_keeps.
  - intros d1 d2 h. apply denoise_nlm_blind.
  - intros data h. apply Hpad, quattro_keeps.
  - intros d1 d2 h. apply quattro_blind.
  - intros data mask maskStride inpaintRadius method. apply Hpad, inpaint_keeps.
  - intros d1 d2 m1 m2 maskStride inpaintRadius method. apply inpaint_blind.
  - intros src srcRows srcCols srcStride dst. apply Hpad, bicubic_keeps.
  - intros s1 s2 dst dstRows dstCols dstStride. apply bicubic_blind.
Qed.

Lemma views_are_respected_witness :
  (0 ≤ 4 * 3 ≤ 14)%Z ∧
  ∃ data',
    run ref_backend.B (denoise_nlm_opencv sample.image 4 4 3 14 sample.h) = Ok data' ∧
    data' !! 12 = sample.image !! 12 ∧ data' !! 13 = sample.image !! 13.
Proof.
  assert (0 ≤ 4 * 3 ≤ 14)%Z as Hs by lia.
  assert (valid_view sample.image 4 4 3 14) as Hv.
  { unfold valid_view, view_in_bounds, INT_MAX. simpl. lia. }
  split; [exact Hs|].
  destruct (denoise_nlm_3ch ref_backend.B sample.image 4 4 14 sample.h
              ref_backend_contract Hv eq_refl eq_refl) as (_ & _ & data' & _ & Hrun & _).
  exists data'. split; [exact Hrun|].
  destruct (proj1 (views_are_respected ref_backend.B 4 4 3 14 Hs) sample.image sample.h
              data' Hrun) as [_ Hpad].
  split.
  - exact (Hpad 0%Z 12%Z ltac:(lia) ltac:(lia)).
  - exact (Hpad 0%Z 13%Z ltac:(lia) ltac:(lia)).
Defined.

(** C7. Step 2 of the three-channel band-split denoise.  The second kernel
    call is the median filter with aperture 3 on [V], the single-channel
    matrix holding channel 2 of the step-1 output [out1] and nothing
    else.  The matrix [out2] that step 3 starts from has the header of
    [out1], its channels 0 and 1 are those of [out1], and its channel 2 is
    the answer of the median filter. *)
Theorem chroma_median_step (B : Backend) data rows cols rowStride h :
  kernel_contract B →
  valid_view data rows cols 3 rowStride → (0 < rows)%Z → (0 < cols)%Z →
  let img := image_of data rows cols 3 rowStride in
  let step1 := FastNlMeansDenoising img [f32.zero; h; h] 3 11 NORM_L1 in
  let out1 := B step1 in
  let V := extract_channel out1 2 in
  let median := B (MedianBlur V 3) in
  ∃ (out2 : Mat) (rest : list KernelCall),
    calls B (denoise_nlm_opencv data rows cols 3 rowStride h) =
      step1 :: MedianBlur V 3
      :: Resize out2 Size_default (f64.div f64.one (f64.of_int 4))
                (f64.div f64.one (f64.of_int 4)) INTER_AREA
      :: rest ∧
    Mat_channels V = 1 ∧ Mat_size V = Mat_size out1 ∧
    (∀ y x, Mat_at V y x 0 = Mat_at out1 y x 2) ∧
    same_header out2 out1 ∧
    ∀ y x, Mat_at out2 y x 0 = Mat_at out1 y x 0 ∧
           Mat_at out2 y x 1 = Mat_at out1 y x 1 ∧
           Mat_at out2 y x 2 = Mat_at median y x 0.
Proof.
  intros HB Hv Hrows Hcols. cbv zeta.
  destruct (denoise_nlm_3ch B data rows cols rowStride h HB Hv Hrows Hcols)
    as (out2 & out3 & data' & Hbs & _ & _).
  destruct Hbs as (sub_res & Hcs & _ & Hat & _ & _ & _ & Hh1 & _ & _ & Hh2 & _ & _).
  exists out2. eexists. split; [exact Hcs|].
  split; [done|]. split; [done|]. split; [intros y x; apply extract_channel_at|].
  split.
  { destruct Hh1 as (Hr1 & Hc1 & Ht1), Hh2 as (Hr2 & Hc2 & Ht2).
    repeat split; congruence. }
  intros y x. by rewrite !Hat.
Qed.

Lemma chroma_median_step_witness :
  kernel_contract ref_backend.B ∧ valid_view sample.image 4 4 3 14 ∧
  nth_error (calls ref_backend.B (denoise_nlm_opencv sample.image 4 4 3 14 sample.h)) 1 =
    Some (MedianBlur (extract_channel (image_of sample.image 4 4 3 14) 2) 3).
Proof.
  assert (valid_view sample.image 4 4 3 14) as Hv.
  { unfold valid_view, view_in_bounds, INT_MAX. simpl. lia. }
  split; [exact ref_backend_contract|]. split; [exact Hv|].
  destruct (chroma_median_step ref_backend.B sample.image 4 4 14 sample.h
              ref_backend_contract Hv eq_refl eq_refl) as (out2 & rest & -> & _).
  reflexivity.
Defined.

(** C8. The upscaler issues one kernel call: [resize] of the source image,
    read through the source header with the source stride, to the size
    [(dstCols, dstRows)] of the destination header, with both scale
    factors 0 and [INTER_CUBIC].  The answer has the destination's size,
    and on return the destination buffer holds it, sample [(y, x, c)] at
    [y * dstStride + x * channels + c], with everything outside the
    destination's logical region unchanged.  The two strides are
    independent. *)
Theorem upscale_to_destination_size (B : Backend)
    src srcRows srcCols channels srcStride dst dstRows dstCols dstStride :
  kernel_contract B →
  view_in_bounds src srcRows srcCols channels srcStride →
  view_in_bounds dst dstRows dstCols channels dstStride →
  (0 < dstRows)%Z → (0 < dstCols)%Z →
  let srcMat := image_of src srcRows srcCols channels srcStride in
  let call := Resize srcMat (mkSize (Z.to_nat dstCols) (Z.to_nat dstRows))
                     f64.zero f64.zero INTER_CUBIC in
  calls B (bicubic_upscale_opencv src srcRows srcCols channels srcStride
             dst dstRows dstCols dstStride) = [call] ∧
  (∀ y x c : nat, (Z.of_nat y < srcRows)%Z → (Z.of_nat x < srcCols)%Z →
     (Z.of_nat c < channels)%Z →
     Mat_at srcMat y x c = src !! sample_index srcStride channels y x c) ∧
  Mat_size (B call) = mkSize (Z.to_nat dstCols) (Z.to_nat dstRows) ∧
  ∃ dst',
    run B (bicubic_upscale_opencv src srcRows srcCols channels srcStride
             dst dstRows dstCols dstStride) = Ok dst' ∧
    written_back dst dst' dstRows dstCols channels dstStride (B call).
Proof.
  intros HB Hsv Hdv Hrows Hcols. cbv zeta. split_and!.
  - by apply bicubic_calls.
  - intros y x c Hy Hx Hc. destruct Hsv as (? & ? & ? & ? & ?).
    apply image_of_at; nia.
  - apply (resize_shape B HB); simpl; lia.
  - by apply bicubic_run.
Qed.

Lemma upscale_to_destination_size_witness :
  kernel_contract ref_backend.B ∧
  view_in_bounds sample.small 2 2 1 3 ∧ view_in_bounds sample.canvas 4 4 1 5 ∧
  run ref_backend.B (bicubic_upscale_opencv sample.small 2 2 1 3 sample.canvas 4 4 5) =
    Ok [1; 1; 2; 2; 0;  1; 1; 2; 2; 0;  4; 4; 5; 5; 0;  4; 4; 5; 5; 0]%Z.
Proof.
  assert (view_in_bounds sample.small 2 2 1 3) as Hs.
  { unfold view_in_bounds. simpl. lia. }
  assert (view_in_bounds sample.canvas 4 4 1 5) as Hd.
  { unfold view_in_bounds. simpl. lia. }
  split; [exact ref_backend_contract|]. split; [exact Hs|]. split; [exact Hd|].
  destruct (upscale_to_destination_size ref_backend.B sample.small 2 2 1 3
              sample.canvas 4 4 5 ref_backend_contract Hs Hd eq_refl eq_refl)
    as (_ & _ & _ & dst' & Hrun & _).
  reflexivity.
Defined.






(** * Further properties of the entry points *)

(** ** Indices inside a view *)

Lemma in_view_sample rows cols channels rowStride (i : nat) :
  (0 ≤ channels)%Z →
  in_view rows cols channels rowStride i →
  ∃ y x c : nat,
    (Z.of_nat y < rows)%Z ∧ (Z.of_nat x < cols)%Z ∧ (Z.of_nat c < channels)%Z ∧
    i = sample_index rowStride channels y x c.
Proof.
  intros Hch (y & j & Hy & Hj & Hi).
  assert (0 < channels)%Z as Hpos.
  { destruct (decide (channels = 0%Z)) as [->|]; [rewrite Z.mul_0_r in Hj|]; lia. }
  pose proof (Z.div_mod j channels ltac:(lia)) as Hdm.
  pose proof (Z.mod_pos_bound j channels Hpos) as Hmod.
  assert (0 ≤ j / channels)%Z as Hq by (apply Z.div_pos; lia).
  assert (j / channels < cols)%Z as Hx.
  { apply Z.div_lt_upper_bound; lia. }
  exists (Z.to_nat y), (Z.to_nat (j / channels)), (Z.to_nat (j mod channels)).
  unfold sample_index. rewrite !Z2Nat.id by lia.
  split; [lia|]. split; [lia|]. split; [lia|]. lia.
Qed.

Lemma in_view_dec rows cols channels rowStride (i : nat) :
  (0 ≤ cols * channels ≤ rowStride)%Z →
  in_view rows cols channels rowStride i ∨ ¬ in_view rows cols channels rowStride i.
Proof.
  intros Hs. destruct (decide (rowStride = 0%Z)) as [->|Hne].
  { right. intros (y & j & _ & Hj & _). lia. }
  assert (0 < rowStride)%Z as Hpos by lia.
  pose proof (Z.div_mod (Z.of_nat i) rowStride Hne) as Hdm.
  pose proof (Z.mod_pos_bound (Z.of_nat i) rowStride Hpos) as Hmod.
  assert (0 ≤ Z.of_nat i / rowStride)%Z as Hq by (apply Z.div_pos; lia).
  destruct (decide (Z.of_nat i / rowStride < rows ∧
                    Z.of_nat i mod rowStride < cols * channels)%Z) as [[Hy Hj]|Hno].
  - left. exists (Z.of_nat i / rowStride)%Z, (Z.of_nat i mod rowStride)%Z. lia.
  - right. intros (y & j & Hy & Hj & Hi). apply Hno.
    assert (y = Z.of_nat i / rowStride)%Z as <-.
    { apply (Z.div_unique_pos _ _ _ j); lia. }
    split; [lia|].
    replace (Z.of_nat i mod rowStride)%Z with j; [lia|].
    apply (Z.mod_unique_pos _ _ y); lia.
Qed.

(** Writing back what the buffer already holds changes nothing. *)
Lemma written_back_same data data' rows cols channels rowStride out :
  (0 ≤ channels)%Z → (0 ≤ cols * channels ≤ rowStride)%Z →
  written_back data data' rows cols channels rowStride out →
  (∀ y x c : nat, (Z.of_nat y < rows)%Z → (Z.of_nat x < cols)%Z → (Z.of_nat c < channels)%Z →
     Mat_at out y x c = data !! sample_index rowStride channels y x c) →
  data' = data.
Proof.
  intros Hch Hs (Hlen & Hin & Hout) Hsame. apply list_eq. intros i.
  destruct (in_view_dec rows cols channels rowStride i Hs) as [Hv|Hv].
  - destruct (in_view_sample _ _ _ _ _ Hch Hv) as (y & x & c & Hy & Hx & Hc & ->).
    rewrite Hin by done. by apply Hsame.
  - by apply Hout.
Qed.


(** ** The write-back of an unchanged image *)

(** Reading the image through the header and copying it back row by row
    restores the buffer exactly, padding included. *)
Lemma copy_back_image data rows cols channels rowStride :
  valid_view data rows cols channels rowStride →
  copy_back data rows rowStride (image_of data rows cols channels rowStride)
            (cc ← int_mul cols channels; Ok (cc * sizeof_uint16)%Z) = Ok data.
Proof.
  intros Hv. destruct (image_of_ok _ _ _ _ _ (proj1 Hv)) as [_ Hwf].
  pose proof Hv as [(Hr & Hc & Hch & Hs & Hlen) [Hrs Hrr]].
  destruct (copy_back_ok data rows cols channels rowStride
              (image_of data rows cols channels rowStride)
              (cc ← int_mul cols channels; Ok (cc * sizeof_uint16)%Z))
    as (data' & Hcopy & Hwb); [done|done|done| |].
  { unfold int_mul. rewrite decide_True; [done|]. unfold INT_MIN. nia. }
  rewrite Hcopy. f_equal.
  apply (written_back_same data data' rows cols channels rowStride _ Hch
           ltac:(nia) Hwb).
  intros y x c Hy Hx Hcc. apply image_of_at; lia.
Qed.

(** X1. On a view of 1 to 512 channels, a denoise kernel that returns its
    input unchanged makes the single-pass entry points return the caller's
    buffer exactly as it was, padding included: the header over the buffer
    and the row-by-row copy back are inverse to each other. *)
Theorem single_pass_round_trip (B : Backend) data rows cols channels rowStride h :
  valid_view data rows cols channels rowStride → (1 ≤ channels ≤ CV_CN_MAX)%Z →
  let img := image_of data rows cols channels rowStride in
  (B (FastNlMeansDenoising img
        (if decide (channels = 3%Z) then [f32.zero; h; f32.mul h (f32.of_int 2)] else [h])
        3 11 NORM_L1) = img →
   run B (denoise_quattro_highres_opencv data rows cols channels rowStride h) = Ok data) ∧
  (channels ≠ 3%Z →
   B (FastNlMeansDenoising img [h] 3 11 NORM_L1) = img →
   run B (denoise_nlm_opencv data rows cols channels rowStride h) = Ok data).
Proof.
  intros Hv _. cbv zeta.
  destruct (image_of_ok _ _ _ _ _ (proj1 Hv)) as [Himg _].
  pose proof (copy_back_image data rows cols channels rowStride Hv) as Hcopy.
  split.
  - intros Hid. unfold denoise_quattro_highres_opencv. rewrite Himg. prog_step.
    case_decide; prog_step; by rewrite Hid, Hcopy.
  - intros Hch Hid. unfold denoise_nlm_opencv. rewrite Himg. prog_step.
    rewrite decide_False by done. prog_step. by rewrite Hid, Hcopy.
Qed.

Lemma single_pass_round_trip_witness :
  valid_view sample.image 4 4 3 14 ∧ (1 ≤ 3 ≤ CV_CN_MAX)%Z ∧
  run ref_backend.B (denoise_quattro_highres_opencv sample.image 4 4 3 14 sample.h) =
    Ok sample.image.
Proof.
  assert (valid_view sample.image 4 4 3 14) as Hv.
  { unfold valid_view, view_in_bounds, INT_MAX. simpl. lia. }
  assert (1 ≤ 3 ≤ CV_CN_MAX)%Z as Hc.
  { unfold CV_CN_MAX. lia. }
  split; [exact Hv|]. split; [exact Hc|].
  exact (proj1 (single_pass_round_trip ref_backend.B sample.image 4 4 3 14 sample.h Hv Hc)
           eq_refl).
Defined.

(** X2. For any channel count from 1 to 512 other than three the
    band-split denoise is a single pass: one call of the patch-denoise kernel on the whole image
    with the one strength [{h}], template window 3, search window 11 and
    the L1 norm; on return the logical region of the buffer holds the
    kernel's answer and the rest of the buffer is as before. *)
Theorem band_split_single_pass (B : Backend) data rows cols channels rowStride h :
  kernel_contract B →
  valid_view data rows cols channels rowStride →
  (1 ≤ channels ≤ CV_CN_MAX)%Z → channels ≠ 3%Z →
  let call := FastNlMeansDenoising (image_of data rows cols channels rowStride)
                                   [h] 3 11 NORM_L1 in
  calls B (denoise_nlm_opencv data rows cols channels rowStride h) = [call] ∧
  ∃ data',
    run B (denoise_nlm_opencv data rows cols channels rowStride h) = Ok data' ∧
    written_back data data' rows cols channels rowStride (B call).
Proof.
  intros HB Hv _ Hch. cbv zeta. split.
  - by apply denoise_nlm_calls_1; [apply Hv|].
  - by apply denoise_nlm_run_1.
Qed.

Lemma band_split_single_pass_witness :
  kernel_contract ref_backend.B ∧ valid_view sample.image 4 12 1 14 ∧
  (1 ≤ 1 ≤ CV_CN_MAX)%Z ∧
  length (calls ref_backend.B (denoise_nlm_opencv sample.image 4 12 1 14 sample.h)) = 1.
Proof.
  assert (valid_view sample.image 4 12 1 14) as Hv.
  { unfold valid_view, view_in_bounds, INT_MAX. simpl. lia. }
  assert (1 ≤ 1 ≤ CV_CN_MAX)%Z as Hc.
  { unfold CV_CN_MAX. lia. }
  split; [exact ref_backend_contract|]. split; [exact Hv|]. split; [exact Hc|].
  destruct (band_split_single_pass ref_backend.B sample.image 4 12 1 14 sample.h
              ref_backend_contract Hv Hc ltac:(discriminate)) as [-> _].
  reflexivity.
Defined.

(** X3. On a view of 1 to 512 channels the simplified high-resolution
    denoise writes the kernel's answer back: on return sample [(y, x, c)] of the answer is at
    [y * rowStride + x * channels + c] of the buffer, for every sample of
    the image, and every other sample of the buffer is as before. *)
Theorem highres_writes_answer_back (B : Backend) data rows cols channels rowStride h :
  kernel_contract B →
  valid_view data rows cols channels rowStride → (1 ≤ channels ≤ CV_CN_MAX)%Z →
  let hv := if decide (channels = 3%Z)
            then [f32.zero; h; f32.mul h (f32.of_int 2)] else [h] in
  let answer := B (FastNlMeansDenoising (image_of data rows cols channels rowStride)
                                        hv 3 11 NORM_L1) in
  ∃ data',
    run B (denoise_quattro_highres_opencv data rows cols channels rowStride h) = Ok data' ∧
    length data' = length data ∧
    (∀ y x c : nat, (Z.of_nat y < rows)%Z → (Z.of_nat x < cols)%Z → (Z.of_nat c < channels)%Z →
       data' !! sample_index rowStride channels y x c = Mat_at answer y x c) ∧
    (∀ i : nat, ¬ in_view rows cols channels rowStride i → data' !! i = data !! i).
Proof.
  intros HB Hv _. cbv zeta.
  destruct (quattro_run B data rows cols channels rowStride h HB Hv)
    as (data' & Hrun & Hlen & Hin & Hout).
  by exists data'.
Qed.

Lemma highres_writes_answer_back_witness :
  kernel_contract ref_backend.B ∧ valid_view sample.image 4 4 3 14 ∧
  (1 ≤ 3 ≤ CV_CN_MAX)%Z ∧
  ∃ data',
    run ref_backend.B (denoise_quattro_highres_opencv sample.image 4 4 3 14 sample.h)
      = Ok data' ∧
    length data' = 56.
Proof.
  assert (valid_view sample.image 4 4 3 14) as Hv.
  { unfold valid_view, view_in_bounds, INT_MAX. simpl. lia. }
  assert (1 ≤ 3 ≤ CV_CN_MAX)%Z as Hc.
  { unfold CV_CN_MAX. lia. }
  split; [exact ref_backend_contract|]. split; [exact Hv|]. split; [exact Hc|].
  destruct (highres_writes_answer_back ref_backend.B sample.image 4 4 3 14 sample.h
              ref_backend_contract Hv Hc) as (data' & Hrun & Hlen & _).
  exists data'. split; [exact Hrun|exact Hlen].
Defined.

(** X4. For any channel count other than three the two denoise entry
    points are the same program: whatever the kernels answer, they issue
    the same calls and return the same buffer or the same fault. *)
Theorem denoise_entry_points_coincide data rows cols channels rowStride h :
  channels ≠ 3%Z →
  denoise_nlm_opencv data rows cols channels rowStride h =
  denoise_quattro_highres_opencv data rows cols channels rowStride h.
Proof.
  intros Hch. unfold denoise_nlm_opencv, denoise_quattro_highres_opencv.
  destruct (decide (channels = 3%Z)); [done|reflexivity].
Qed.

Lemma denoise_entry_points_coincide_witness :
  denoise_nlm_opencv sample.image 4 12 1 14 sample.h =
  denoise_quattro_highres_opencv sample.image 4 12 1 14 sample.h.
Proof.
  apply (denoise_entry_points_coincide sample.image 4 12 1 14 sample.h). discriminate.
Defined.

(** X5. Defect repair of a single-channel image calls the inpainting
    kernel once, on the image itself (no split, no merge), with a mask
    matrix of the image's size whose sample [(y, x)] is
    [mask[y * maskStride + x]]; the answer is copied back with [cols]
    samples per row, and the rest of the buffer is as before. *)
Theorem repair_single_channel (B : Backend) data rows cols rowStride
    mask maskStride inpaintRadius method :
  kernel_contract B →
  valid_view data rows cols 1 rowStride →
  view_in_bounds mask rows cols 1 maskStride →
  let img := image_of data rows cols 1 rowStride in
  let maskMat := mask_of mask rows cols maskStride in
  let call := Inpaint img maskMat (f64.of_int inpaintRadius)
                      (if decide (method = 0%Z) then INPAINT_NS else INPAINT_TELEA) in
  calls B (inpaint_bad_pixels_opencv data rows cols 1 rowStride
             mask maskStride inpaintRadius method) = [call] ∧
  Mat_size maskMat = Mat_size img ∧
  (∀ y x : nat, (Z.of_nat y < rows)%Z → (Z.of_nat x < cols)%Z →
     Mat_at maskMat y x 0 = mask !! sample_index maskStride 1 y x 0 ∧
     Mat_at img y x 0 = data !! sample_index rowStride 1 y x 0) ∧
  ∃ data',
    run B (inpaint_bad_pixels_opencv data rows cols 1 rowStride
             mask maskStride inpaintRadius method) = Ok data' ∧
    written_back data data' rows cols 1 rowStride (B call).
Proof.
  intros HB Hv Hm. cbv zeta. fold (inpaint_method method). split_and!.
  - by rewrite (inpaint_calls B _ _ _ _ _ _ _ _ _ (proj1 Hv) Hm).
  - done.
  - intros y x Hy Hx. destruct Hv as [(?&?&?&?&?) _], Hm as (?&?&?&?&?).
    split; [apply mask_of_at|apply image_of_at]; lia.
  - by apply inpaint_run_1.
Qed.

Lemma repair_single_channel_witness :
  kernel_contract ref_backend.B ∧ valid_view sample.image 4 4 1 14 ∧
  view_in_bounds sample.mask 4 4 1 5 ∧
  length (calls ref_backend.B
            (inpaint_bad_pixels_opencv sample.image 4 4 1 14 sample.mask 5 3 1)) = 1.
Proof.
  assert (valid_view sample.image 4 4 1 14) as Hv.
  { unfold valid_view, view_in_bounds, INT_MAX. simpl. lia. }
  assert (view_in_bounds sample.mask 4 4 1 5) as Hm.
  { unfold view_in_bounds. simpl. lia. }
  split; [exact ref_backend_contract|]. split; [exact Hv|]. split; [exact Hm|].
  destruct (repair_single_channel ref_backend.B sample.image 4 4 14 sample.mask 5 3 1
              ref_backend_contract Hv Hm) as [-> _].
  reflexivity.
Defined.

(** X6. A mask without a flagged pixel makes the defect repair return the
    buffer unchanged, for one channel and for several, provided the
    inpainting kernel returns its input outside the mask: neither the
    split into planes, the merge, nor the strided copy back alters a
    sample. *)
Theorem repair_with_clear_mask (B : Backend) data rows cols channels rowStride
    mask maskStride inpaintRadius method :
  kernel_contract B → inpaint_keeps_unmasked B →
  valid_view data rows cols channels rowStride →
  view_in_bounds mask rows cols 1 maskStride →
  (1 ≤ channels)%Z →
  (∀ y x : nat, (Z.of_nat y < rows)%Z → (Z.of_nat x < cols)%Z →
     mask !! sample_index maskStride 1 y x 0 = Some 0%Z) →
  run B (inpaint_bad_pixels_opencv data rows cols channels rowStride
           mask maskStride inpaintRadius method) = Ok data.
Proof.
  intros HB Hkeep Hv Hm Hch Hclear.
  pose proof Hv as [(Hr & Hc & Hc0 & Hs & Hlen) _].
  assert (0 ≤ maskStride)%Z as Hms by (destruct Hm as (?&?&?&?&?); lia).
  assert (∀ y x : nat, (Z.of_nat y < rows)%Z → (Z.of_nat x < cols)%Z →
            Mat_at (mask_of mask rows cols maskStride) y x 0 = Some 0%Z) as Hmask.
  { intros y x Hy Hx. rewrite mask_of_at by lia. by apply Hclear. }
  destruct (decide (channels = 1%Z)) as [->|Hne].
  - destruct (inpaint_run_1 B data rows cols rowStride mask maskStride inpaintRadius
                method HB Hv Hm) as (data' & Hrun & Hwb).
    rewrite Hrun. f_equal.
    apply (written_back_same data data' rows cols 1 rowStride _ Hc0 ltac:(lia) Hwb).
    intros y x c Hy Hx Hcc. rewrite Hkeep by (assert (c = 0) as -> by lia; by apply Hmask).
    apply image_of_at; lia.
  - destruct (inpaint_run_multi B data rows cols channels rowStride mask maskStride
                inpaintRadius method HB Hv Hm ltac:(lia))
      as (result & data' & _ & Hrun & Hwb & Hres).
    rewrite Hrun. f_equal.
    apply (written_back_same data data' rows cols channels rowStride _ Hc0 ltac:(nia) Hwb).
    intros y x c Hy Hx Hcc. rewrite Hres by lia.
    rewrite Hkeep by (by apply Hmask). rewrite extract_channel_at.
    apply image_of_at; lia.
Qed.

Lemma repair_with_clear_mask_witness :
  kernel_contract ref_backend.B ∧ inpaint_keeps_unmasked ref_backend.B ∧
  valid_view sample.image 4 4 3 14 ∧ view_in_bounds sample.canvas 4 4 1 5 ∧
  run ref_backend.B (inpaint_bad_pixels_opencv sample.image 4 4 3 14 sample.canvas 5 3 0) =
    Ok sample.image.
Proof.
  assert (valid_view sample.image 4 4 3 14) as Hv.
  { unfold valid_view, view_in_bounds, INT_MAX. simpl. lia. }
  assert (view_in_bounds sample.canvas 4 4 1 5) as Hm.
  { unfold view_in_bounds. simpl. lia. }
  split; [exact ref_backend_contract|]. split; [exact ref_backend_keeps_unmasked|].
  split; [exact Hv|]. split; [exact Hm|].
  apply (repair_with_clear_mask ref_backend.B sample.image 4 4 3 14 sample.canvas 5 3 0
           ref_backend_contract ref_backend_keeps_unmasked Hv Hm); [lia|].
  intros y x Hy Hx. unfold sample_index, sample.canvas.
  apply lookup_replicate_2. lia.
Defined.



(** X8. The upscaler fills the whole logical region of the destination:
    what the destination held there before has no influence on the
    result.  Started on two destination buffers it issues the same call
    and the results agree on every sample of the region. *)
Theorem upscale_overwrites_destination (B : Backend)
    src srcRows srcCols channels srcStride d1 d2 dstRows dstCols dstStride :
  kernel_contract B →
  view_in_bounds src srcRows srcCols channels srcStride →
  view_in_bounds d1 dstRows dstCols channels dstStride →
  view_in_bounds d2 dstRows dstCols channels dstStride →
  (0 < dstRows)%Z → (0 < dstCols)%Z →
  calls B (bicubic_upscale_opencv src srcRows srcCols channels srcStride
             d1 dstRows dstCols dstStride) =
  calls B (bicubic_upscale_opencv src srcRows srcCols channels srcStride
             d2 dstRows dstCols dstStride) ∧
  ∃ r1 r2,
    run B (bicubic_upscale_opencv src srcRows srcCols channels srcStride
             d1 dstRows dstCols dstStride) = Ok r1 ∧
    run B (bicubic_upscale_opencv src srcRows srcCols channels srcStride
             d2 dstRows dstCols dstStride) = Ok r2 ∧
    ∀ y x c : nat, (Z.of_nat y < dstRows)%Z → (Z.of_nat x < dstCols)%Z →
      (Z.of_nat c < channels)%Z →
      r1 !! sample_index dstStride channels y x c =
      r2 !! sample_index dstStride channels y x c.
Proof.
  intros HB Hs H1 H2 Hrows Hcols. split.
  - by rewrite !bicubic_calls.
  - destruct (bicubic_run B src srcRows srcCols channels srcStride d1 dstRows dstCols
                dstStride HB Hs H1 Hrows Hcols) as (r1 & Hr1 & _ & Hin1 & _).
    destruct (bicubic_run B src srcRows srcCols channels srcStride d2 dstRows dstCols
                dstStride HB Hs H2 Hrows Hcols) as (r2 & Hr2 & _ & Hin2 & _).
    exists r1, r2. split; [done|]. split; [done|].
    intros y x c Hy Hx Hc. by rewrite Hin1, Hin2.
Qed.

Lemma upscale_overwrites_destination_witness :
  kernel_contract ref_backend.B ∧
  view_in_bounds sample.small 2 2 1 3 ∧ view_in_bounds sample.canvas 4 4 1 5 ∧
  view_in_bounds sample.mask 4 4 1 5 ∧
  ∃ r1 r2,
    run ref_backend.B (bicubic_upscale_opencv sample.small 2 2 1 3 sample.canvas 4 4 5)
      = Ok r1 ∧
    run ref_backend.B (bicubic_upscale_opencv sample.small 2 2 1 3 sample.mask 4 4 5)
      = Ok r2 ∧
    r1 !! 6 = r2 !! 6.
Proof.
  assert (view_in_bounds sample.small 2 2 1 3) as Hs.
  { unfold view_in_bounds. simpl. lia. }
  assert (view_in_bounds sample.canvas 4 4 1 5) as H1.
  { unfold view_in_bounds. simpl. lia. }
  assert (view_in_bounds sample.mask 4 4 1 5) as H2.
  { unfold view_in_bounds. simpl. lia. }
  split; [exact ref_backend_contract|]. split; [exact Hs|]. split; [exact H1|].
  split; [exact H2|].
  destruct (upscale_overwrites_destination ref_backend.B sample.small 2 2 1 3
              sample.canvas sample.mask 4 4 5 ref_backend_contract Hs H1 H2
              eq_refl eq_refl) as (_ & r1 & r2 & Hr1 & Hr2 & Hsame).
  exists r1, r2. split; [exact Hr1|]. split; [exact Hr2|].
  exact (Hsame 1 1 0 eq_refl eq_refl eq_refl).
Defined.

(** X9. When the low-resolution denoise changes nothing, the residual the
    three-channel pipeline upsamples is zero in every sample: step 3
    isolates exactly what that denoise removed. *)
Theorem residual_of_unchanged_downsample (B : Backend) data rows cols rowStride h :
  kernel_contract B →
  valid_view data rows cols 3 rowStride → (0 < rows)%Z → (0 < cols)%Z →
  (∀ src hs, B (FastNlMeansDenoising src hs 3 21 NORM_L1) = src) →
  ∃ (pre : list KernelCall) (sub_res : Mat),
    calls B (denoise_nlm_opencv data rows cols 3 rowStride h) =
      pre ++ [Resize sub_res (mkSize (Z.to_nat cols) (Z.to_nat rows))
                     f64.zero f64.zero INTER_CUBIC] ∧
    Mat_depth sub_res = CV_16S ∧
    ∀ y x c v, Mat_at sub_res y x c = Some v → v = 0%Z.
Proof.
  intros HB Hv Hrows Hcols Hid.
  destruct (denoise_nlm_3ch B data rows cols rowStride h HB Hv Hrows Hcols)
    as (out2 & out3 & data' & Hbs & _ & _).
  destruct Hbs as (sub_res & Hcs & _ & _ & Hsr & _ & _ & _ & _ & _ & Hh2 & _ & _).
  rewrite Hid in Hsr. destruct (subtract_at _ _ _ _ Hsr) as [Hd Hat].
  eexists [_; _; _; _], sub_res. split; [|split; [done|]].
  - rewrite Hcs, (same_header_size _ _ Hh2). reflexivity.
  - intros y x c v. rewrite Hat.
    destruct (Mat_at _ y x c) as [u|]; [|done]. intros [= <-].
    rewrite Z.sub_diag. reflexivity.
Qed.

Lemma residual_of_unchanged_downsample_witness :
  kernel_contract ref_backend.B ∧ valid_view sample.image 4 4 3 14 ∧
  (∀ src hs, ref_backend.B (FastNlMeansDenoising src hs 3 21 NORM_L1) = src) ∧
  ∃ sub_res,
    last (calls ref_backend.B (denoise_nlm_opencv sample.image 4 4 3 14 sample.h)) =
      Some (Resize sub_res (mkSize 4 4) f64.zero f64.zero INTER_CUBIC) ∧
    Mat_at sub_res 0 0 1 = Some 0%Z.
Proof.
  assert (valid_view sample.image 4 4 3 14) as Hv.
  { unfold valid_view, view_in_bounds, INT_MAX. simpl. lia. }
  split; [exact ref_backend_contract|]. split; [exact Hv|]. split; [reflexivity|].
  destruct (residual_of_unchanged_downsample ref_backend.B sample.image 4 4 14 sample.h
              ref_backend_contract Hv eq_refl eq_refl (λ _ _, eq_refl))
    as (pre & sub_res & Hcalls & _ & _).
  eexists. split; [reflexivity|reflexivity].
Defined.

(** ** A buffer shorter than its view *)

Lemma read_rows_fits data ys step esz cols ch rs :
  read_rows data ys step esz cols ch = Ok rs →
  ∀ y, y ∈ ys →
    (Z.of_nat y * step / esz + Z.of_nat (cols * ch) ≤ Z.of_nat (length data))%Z.
Proof.
  revert rs. induction ys as [|y ys IH]; intros rs; simpl.
  - intros _ y Hy. by apply elem_of_nil in Hy.
  - unfold read_span. case_decide as Hb; [simpl|done].
    destruct (read_rows data ys step esz cols ch) as [rs'|]; [simpl|done].
    intros _ y' [->|Hy']%elem_of_cons; [lia|]. by apply (IH rs').
Qed.

Lemma read_rows_fault data ys step esz cols ch e :
  read_rows data ys step esz cols ch = Err e → e = UndefinedBehaviour.
Proof.
  induction ys as [|y ys IH]; simpl; [done|].
  unfold read_span. case_decide as Hb; simpl; [|by intros [= <-]].
  destruct (read_rows data ys step esz cols ch) as [rs'|e']; simpl; [done|].
  intros [= <-]. by apply IH.
Qed.

(** A 16-bit header whose last row ends past the buffer cannot be read. *)
Lemma Mat_of_data_short data rows cols channels rowStride :
  (0 < rows)%Z → (0 ≤ cols)%Z → (0 ≤ channels)%Z →
  (Z.of_nat (length data) < (rows - 1) * rowStride + cols * channels)%Z →
  Mat_of_data rows cols (CV_16UC channels) data (rowStride * sizeof_uint16) =
  Err UndefinedBehaviour.
Proof.
  intros Hr Hc Hch Hshort. unfold Mat_of_data.
  destruct (read_rows data _ _ _ _ _) as [rs|e] eqn:Hrs; simpl.
  - exfalso. pose proof (read_rows_fits _ _ _ _ _ _ _ Hrs (Z.to_nat (rows - 1))) as Hfit.
    specialize (Hfit ltac:(apply elem_of_seq; lia)).
    cbn [depth cn CV_16UC elemSize1] in Hfit.
    rewrite Z.mul_assoc, Z.div_mul in Hfit by done.
    rewrite Nat2Z.inj_mul, !Z2Nat.id in Hfit by lia. lia.
  - by rewrite (read_rows_fault _ _ _ _ _ _ _ Hrs).
Qed.

(** X10. No entry point checks the buffer against the header it is given.
    If the last row of the view ends past the end of the buffer, every
    entry point runs into an out-of-bounds access (undefined behaviour in
    C++), whatever the kernels do; for the upscaler this holds for a short
    destination. *)
Theorem short_buffer_is_out_of_bounds (B : Backend) data rows cols channels rowStride :
  (0 < rows)%Z → (0 ≤ cols)%Z → (0 ≤ channels)%Z →
  (Z.of_nat (length data) < (rows - 1) * rowStride + cols * channels)%Z →
  (∀ h, run B (denoise_nlm_opencv data rows cols channels rowStride h)
        = Err UndefinedBehaviour) ∧
  (∀ h, run B (denoise_quattro_highres_opencv data rows cols channels rowStride h)
        = Err UndefinedBehaviour) ∧
  (∀ mask maskStride inpaintRadius method,
     run B (inpaint_bad_pixels_opencv data rows cols channels rowStride
              mask maskStride inpaintRadius method) = Err UndefinedBehaviour) ∧
  (∀ src srcRows srcCols srcStride,
     run B (bicubic_upscale_opencv src srcRows srcCols channels srcStride
              data rows cols rowStride) = Err UndefinedBehaviour).
Proof.
  intros Hr Hc Hch Hshort.
  pose proof (Mat_of_data_short data rows cols channels rowStride Hr Hc Hch Hshort) as Hbad.
  split_and!.
  - intros h. unfold denoise_nlm_opencv. by rewrite Hbad.
  - intros h. unfold denoise_quattro_highres_opencv. by rewrite Hbad.
  - intros mask maskStride inpaintRadius method. unfold inpaint_bad_pixels_opencv.
    by rewrite Hbad.
  - intros src srcRows srcCols srcStride. unfold bicubic_upscale_opencv. rewrite Hbad.
    destruct (Mat_of_data srcRows srcCols (CV_16UC channels) src _) as [m|e] eqn:Hsrc.
    + done.
    + unfold Mat_of_data in Hsrc.
      destruct (read_rows src _ _ _ _ _) as [rs|e'] eqn:Hrs; [done|].
      simpl in Hsrc. injection Hsrc as <-. simpl.
      by rewrite (read_rows_fault _ _ _ _ _ _ _ Hrs).
Qed.

Lemma short_buffer_is_out_of_bounds_witness :
  (Z.of_nat (length sample.image) < (5 - 1) * 14 + 4 * 3)%Z ∧
  run ref_backend.B (denoise_quattro_highres_opencv sample.image 5 4 3 14 sample.h) =
    Err UndefinedBehaviour.
Proof.
  assert (Z.of_nat (length sample.image) < (5 - 1) * 14 + 4 * 3)%Z as Hshort.
  { simpl. lia. }
  split; [exact Hshort|].
  exact (proj1 (proj2 (short_buffer_is_out_of_bounds ref_backend.B sample.image 5 4 3 14
                         eq_refl ltac:(lia) ltac:(lia) Hshort)) sample.h).
Defined.
